(** * bigtable-client: the TTL expiry subsystem, embedded from the sources

    The repository holds two revisions of the [BigtableClient] class:
    - [src/lib/BigtableClient.ts], where marker rows are keyed
      [<row>#<family>:<column>] and the sweep ([runJob],
      [deleteExpiredData]) lives inside the client;
    - the revision with sharded marker keys ([getTTLRowKey], murmur salt),
      where the sweep is delegated to a [JobTTLEvent] object.
    Methods that are the same in both revisions ([insert], [getParsedValue],
    [retrieve], [get], [getRow], [delete], [deleteRow], [count]) are
    embedded once; methods that differ are embedded per revision, in the
    modules [Lib] (the first) and [Sharded] (the second).

    Modelling choices:
    - JavaScript numbers are the integers [Z] (timestamps, TTLs, counters);
      the one division of the sweep filter is done in [Q];
    - strings are [string]; a character stands for one code unit below 256;
    - tables are finite maps row key -> family -> column -> cell versions;
    - asynchronous store calls take effect in the order in which they are
      dispatched, and every dispatched call is recorded in a request log,
      so that statements about dispatch order are statements about the log;
    - a promise that rejects or a statement that throws is [Throw e]. *)

From Stdlib Require Import ZArith String Ascii List Bool Lia.
From Stdlib Require Import DecimalString DecimalZ DecimalPos QArith Qround Lqa.
From stdpp Require Import gmap strings list.

Open Scope string_scope.
Open Scope Z_scope.

(** ** JavaScript values *)

Module JS.

(** JSON-representable values; numbers are integers. *)
Unset Elimination Schemes.
Inductive json : Type :=
| JNull
| JBool (b : bool)
| JNum (n : Z)
| JStr (s : string)
| JArr (elems : list json)
| JObj (props : list (string * json)).
Set Elimination Schemes.

(** A JavaScript value as the client sees it: [undefined] or a JSON value. *)
Inductive value : Type :=
| Undefined
| Val (j : json).

Definition Null : value := Val JNull.
Definition Bool (b : bool) : value := Val (JBool b).
Definition Num (n : Z) : value := Val (JNum n).
Definition Str (s : string) : value := Val (JStr s).

(** [ToBoolean]: what [!!v], [v || w] and [if (v)] test. *)
Definition truthy (v : value) : bool :=
  match v with
  | Undefined => false
  | Val JNull => false
  | Val (JBool b) => b
  | Val (JNum n) => negb (n =? 0)
  | Val (JStr s) => negb (String.eqb s EmptyString)
  | Val (JArr _) | Val (JObj _) => true
  end.

(** [typeof v === "object"] *)
Definition typeof_object (v : value) : bool :=
  match v with
  | Val JNull | Val (JArr _) | Val (JObj _) => true
  | _ => false
  end.

(** [v || w] *)
Definition or_else (v w : value) : value := if truthy v then v else w.

(** [s || d] for an optional string [s] ([None] is [undefined]). *)
Definition str_or (s : option string) (d : string) : string :=
  match s with
  | Some (String c r) => String c r
  | Some EmptyString | None => d
  end.

(** [n.toString()] and [`${n}`] for an integer [n]. *)
Definition number_to_string (n : Z) : string :=
  NilZero.string_of_int (Z.to_int n).

(** [ToString]: what [JSON.parse(v)] reads when [v] is not a string.
    An array is its elements joined by commas, [null] elements empty. *)
Fixpoint json_to_string (j : json) : string :=
  match j with
  | JNull => "null"
  | JBool true => "true"
  | JBool false => "false"
  | JNum n => number_to_string n
  | JStr s => s
  | JArr l =>
      match l with
      | [] => EmptyString
      | v :: l' =>
          match v with JNull => EmptyString | _ => json_to_string v end ++
          (fix more (l : list json) : string :=
             match l with
             | [] => EmptyString
             | w :: l' =>
                 "," ++ match w with JNull => EmptyString | _ => json_to_string w end
                     ++ more l'
             end) l'
      end
  | JObj _ => "[object Object]"
  end.

Definition to_string (v : value) : string :=
  match v with
  | Undefined => "undefined"
  | Val j => json_to_string j
  end.

(** [s.startsWith(p)] *)
Definition startsWith (p s : string) : bool := String.prefix p s.

(** [s.split(sep)] for a one-character separator: the pieces between the
    occurrences of [sep]; never empty. *)
Fixpoint split (sep : ascii) (s : string) : list string :=
  match s with
  | EmptyString => [EmptyString]
  | String c r =>
      if Ascii.eqb c sep then EmptyString :: split sep r
      else match split sep r with
           | p :: ps => String c p :: ps
           | [] => [String c EmptyString]
           end
  end.

(** Thrown values: the error class and its message. *)
Record error := Error { err_name : string; err_message : string }.

Definition TypeError (msg : string) : error := Error "TypeError" msg.

(** The outcome of a call or of an awaited promise. *)
Inductive result (A : Type) : Type :=
| Return (a : A)
| Throw (e : error).
Arguments Return {A} a.
Arguments Throw {A} e.

End JS.
Import JS.

(** ** JSON.stringify and JSON.parse

    The two built-ins the cell codec calls. Numbers are the integers:
    a literal with a fraction or an exponent is outside the model and is
    rejected like a syntax error, as is a [\u] escape from 256 on. *)

Module JSON.

Definition dquote : ascii := "034"%char.
Definition backslash : ascii := "\"%char.

Definition code (c : ascii) : N := N_of_ascii c.

Definition hex_digit (n : N) : ascii :=
  ascii_of_N (if (n <? 10)%N then 48 + n else 87 + n).

(** The escape of one character inside a quoted string. *)
Definition quote_char (c : ascii) : string :=
  if Ascii.eqb c dquote then String backslash (String dquote EmptyString)
  else if Ascii.eqb c backslash then String backslash (String backslash EmptyString)
  else if (code c =? 8)%N then String backslash "b"
  else if (code c =? 9)%N then String backslash "t"
  else if (code c =? 10)%N then String backslash "n"
  else if (code c =? 12)%N then String backslash "f"
  else if (code c =? 13)%N then String backslash "r"
  else if (code c <? 32)%N then
    String backslash ("u00" ++ String (hex_digit (code c / 16))
                                 (String (hex_digit (code c mod 16)) EmptyString))
  else String c EmptyString.

Fixpoint quote_chars (s : string) : string :=
  match s with
  | EmptyString => String dquote EmptyString
  | String c r => quote_char c ++ quote_chars r
  end.

Definition quote (s : string) : string := String dquote (quote_chars s).

(** [JSON.stringify(j)], without indentation. *)
Fixpoint stringify (j : json) : string :=
  match j with
  | JNull => "null"
  | JBool true => "true"
  | JBool false => "false"
  | JNum n => number_to_string n
  | JStr s => quote s
  | JArr l =>
      "[" ++ match l with
             | [] => "]"
             | v :: l' =>
                 stringify v ++
                 (fix more (l : list json) : string :=
                    match l with
                    | [] => "]"
                    | w :: l' => "," ++ stringify w ++ more l'
                    end) l'
             end
  | JObj l =>
      "{" ++ match l with
             | [] => "}"
             | (k, v) :: l' =>
                 quote k ++ ":" ++ stringify v ++
                 (fix more (l : list (string * json)) : string :=
                    match l with
                    | [] => "}"
                    | (k, w) :: l' => "," ++ quote k ++ ":" ++ stringify w ++ more l'
                    end) l'
             end
  end.

(** The text of an array after its first element, and of an object after
    its first member. *)
Fixpoint more_elems (l : list json) : string :=
  match l with
  | [] => "]"
  | w :: l' => "," ++ stringify w ++ more_elems l'
  end.

Fixpoint more_members (l : list (string * json)) : string :=
  match l with
  | [] => "}"
  | (k, w) :: l' => "," ++ quote k ++ ":" ++ stringify w ++ more_members l'
  end.

(** *** JSON.parse *)

Definition is_ws (c : ascii) : bool :=
  (code c =? 32)%N || (code c =? 9)%N || (code c =? 10)%N || (code c =? 13)%N.

Fixpoint skip_ws (s : string) : string :=
  match s with
  | String c r => if is_ws c then skip_ws r else s
  | EmptyString => s
  end.

Definition hex_value (c : ascii) : option N :=
  let n := code c in
  if (48 <=? n)%N && (n <=? 57)%N then Some (n - 48)%N
  else if (97 <=? n)%N && (n <=? 102)%N then Some (n - 87)%N
  else if (65 <=? n)%N && (n <=? 70)%N then Some (n - 55)%N
  else None.

(** [\uXXXX]; code units from 256 on are outside the character model. *)
Definition hex4 (a b c d : ascii) : option ascii :=
  match hex_value a, hex_value b, hex_value c, hex_value d with
  | Some a, Some b, Some c, Some d =>
      if (a =? 0)%N && (b =? 0)%N then Some (ascii_of_N (16 * c + d)) else None
  | _, _, _, _ => None
  end.

Definition unescape (e : ascii) : option ascii :=
  if Ascii.eqb e dquote then Some dquote
  else if Ascii.eqb e backslash then Some backslash
  else if Ascii.eqb e "/" then Some "/"%char
  else if Ascii.eqb e "b" then Some (ascii_of_N 8)
  else if Ascii.eqb e "t" then Some (ascii_of_N 9)
  else if Ascii.eqb e "n" then Some (ascii_of_N 10)
  else if Ascii.eqb e "f" then Some (ascii_of_N 12)
  else if Ascii.eqb e "r" then Some (ascii_of_N 13)
  else None.

Definition cons_char (c : ascii) (p : option (string * string)) : option (string * string) :=
  match p with
  | Some (s, rest) => Some (String c s, rest)
  | None => None
  end.

(** The characters of a string literal, after its opening quote. *)
Fixpoint parse_chars (s : string) : option (string * string) :=
  match s with
  | EmptyString => None
  | String c r =>
      if Ascii.eqb c dquote then Some (EmptyString, r)
      else if Ascii.eqb c backslash then
        match r with
        | String e r1 =>
            if Ascii.eqb e "u" then
              match r1 with
              | String h1 (String h2 (String h3 (String h4 r2))) =>
                  match hex4 h1 h2 h3 h4 with
                  | Some ch => cons_char ch (parse_chars r2)
                  | None => None
                  end
              | _ => None
              end
            else
              match unescape e with
              | Some ch => cons_char ch (parse_chars r1)
              | None => None
              end
        | EmptyString => None
        end
      else if (code c <? 32)%N then None
      else cons_char c (parse_chars r)
  end.

(** Number tokens. Only integer literals denote a number of the model. *)
Definition is_number_char (c : ascii) : bool :=
  ((48 <=? code c)%N && (code c <=? 57)%N)
  || Ascii.eqb c "-" || Ascii.eqb c "+" || Ascii.eqb c "."
  || Ascii.eqb c "e" || Ascii.eqb c "E".

Fixpoint span_number (s : string) : string * string :=
  match s with
  | String c r =>
      if is_number_char c then
        let (tok, rest) := span_number r in (String c tok, rest)
      else (EmptyString, s)
  | EmptyString => (EmptyString, s)
  end.

Definition number_of_token (tok : string) : option Z :=
  match NilZero.int_of_string tok with
  | Some d =>
      let n := Z.of_int d in
      if String.eqb tok (number_to_string n) || String.eqb tok "-0"
      then Some n else None
  | None => None
  end.

(** A literal: [lit] must lead [s]; what follows it is returned. *)
Fixpoint strip_prefix (lit s : string) : option string :=
  match lit with
  | EmptyString => Some s
  | String a lit' =>
      match s with
      | String b s' => if Ascii.eqb a b then strip_prefix lit' s' else None
      | EmptyString => None
      end
  end.

Definition expect (lit : string) (j : json) (s : string) : option (json * string) :=
  match strip_prefix lit s with
  | Some rest => Some (j, rest)
  | None => None
  end.

Fixpoint parse_value (fuel : nat) (s : string) : option (json * string) :=
  match fuel with
  | O => None
  | S fuel =>
      match skip_ws s with
      | EmptyString => None
      | String c r =>
          if Ascii.eqb c dquote then
            match parse_chars r with
            | Some (str, rest) => Some (JStr str, rest)
            | None => None
            end
          else if Ascii.eqb c "[" then
            match skip_ws r with
            | String c' r' =>
                if Ascii.eqb c' "]" then Some (JArr [], r')
                else match parse_elements fuel r with
                     | Some (l, rest) => Some (JArr l, rest)
                     | None => None
                     end
            | EmptyString => None
            end
          else if Ascii.eqb c "{" then
            match skip_ws r with
            | String c' r' =>
                if Ascii.eqb c' "}" then Some (JObj [], r')
                else match parse_members fuel r with
                     | Some (l, rest) => Some (JObj l, rest)
                     | None => None
                     end
            | EmptyString => None
            end
          else if Ascii.eqb c "n" then expect "null" JNull (String c r)
          else if Ascii.eqb c "t" then expect "true" (JBool true) (String c r)
          else if Ascii.eqb c "f" then expect "false" (JBool false) (String c r)
          else
            let (tok, rest) := span_number (String c r) in
            match number_of_token tok with
            | Some n => Some (JNum n, rest)
            | None => None
            end
      end
  end
with parse_elements (fuel : nat) (s : string) : option (list json * string) :=
  match fuel with
  | O => None
  | S fuel =>
      match parse_value fuel s with
      | Some (v, r) =>
          match skip_ws r with
          | String c r' =>
              if Ascii.eqb c "," then
                match parse_elements fuel r' with
                | Some (l, rest) => Some (v :: l, rest)
                | None => None
                end
              else if Ascii.eqb c "]" then Some ([v], r')
              else None
          | EmptyString => None
          end
      | None => None
      end
  end
with parse_members (fuel : nat) (s : string) : option (list (string * json) * string) :=
  match fuel with
  | O => None
  | S fuel =>
      match skip_ws s with
      | String q r =>
          if Ascii.eqb q dquote then
            match parse_chars r with
            | Some (k, r) =>
                match skip_ws r with
                | String c r =>
                    if Ascii.eqb c ":" then
                      match parse_value fuel r with
                      | Some (v, r) =>
                          match skip_ws r with
                          | String c r' =>
                              if Ascii.eqb c "," then
                                match parse_members fuel r' with
                                | Some (l, rest) => Some ((k, v) :: l, rest)
                                | None => None
                                end
                              else if Ascii.eqb c "}" then Some ([(k, v)], r')
                              else None
                          | EmptyString => None
                          end
                      | None => None
                      end
                    else None
                | EmptyString => None
                end
            | None => None
            end
          else None
      | EmptyString => None
      end
  end.

(** [JSON.parse(s)]: [None] is a [SyntaxError]. *)
Definition parse (s : string) : option json :=
  match parse_value (2 * String.length s + 2) s with
  | Some (j, rest) =>
      match skip_ws rest with
      | EmptyString => Some j
      | String _ _ => None
      end
  | None => None
  end.

End JSON.


(** ** murmur.v3: MurmurHash3 (x86, 32 bit) of the murmurhash package

    The hash is a dependency of the repository and not part of its sources;
    it is written here as the package computes it, on 32-bit words with the
    wrap-around made explicit. *)

Module Murmur.

Definition w32 (x : Z) : Z := x mod 2 ^ 32.
Definition mul32 (x y : Z) : Z := w32 (x * y).
Definition rotl32 (x r : Z) : Z :=
  w32 (Z.lor (Z.shiftl x r) (Z.shiftr x (32 - r))).

Definition c1 : Z := 0xcc9e2d51.
Definition c2 : Z := 0x1b873593.

Definition mix_k1 (k1 : Z) : Z := mul32 (rotl32 (mul32 k1 c1) 15) c2.

Definition mix_h1 (h1 k1 : Z) : Z :=
  w32 (mul32 (rotl32 (Z.lxor h1 (mix_k1 k1)) 13) 5 + 0xe6546b64).

Definition fmix32 (h : Z) : Z :=
  let h := Z.lxor h (Z.shiftr h 16) in
  let h := mul32 h 0x85ebca6b in
  let h := Z.lxor h (Z.shiftr h 13) in
  let h := mul32 h 0xc2b2ae35 in
  Z.lxor h (Z.shiftr h 16).

(** [key.charCodeAt(i) & 0xff] *)
Definition code (c : ascii) : Z := Z.of_N (N_of_ascii c).

(** The body loop over blocks of four characters, then the tail. *)
Fixpoint blocks (key : string) (h1 : Z) : Z :=
  match key with
  | String a (String b (String c (String d rest))) =>
      let k1 := Z.lor (code a)
                (Z.lor (Z.shiftl (code b) 8)
                 (Z.lor (Z.shiftl (code c) 16) (Z.shiftl (code d) 24))) in
      blocks rest (mix_h1 h1 k1)
  | String a (String b (String c EmptyString)) =>
      Z.lxor h1 (mix_k1 (Z.lxor (Z.shiftl (code c) 16)
                          (Z.lxor (Z.shiftl (code b) 8) (code a))))
  | String a (String b EmptyString) =>
      Z.lxor h1 (mix_k1 (Z.lxor (Z.shiftl (code b) 8) (code a)))
  | String a EmptyString =>
      Z.lxor h1 (mix_k1 (code a))
  | EmptyString => h1
  end.

Definition v3 (key : string) (seed : Z) : Z :=
  let h1 := blocks key (w32 seed) in
  let h1 := Z.lxor h1 (Z.of_nat (String.length key)) in
  w32 (fmix32 h1).

End Murmur.

(** ** The backing store

    The column-family store is an external collaborator; it is modelled as
    far as the client calls it: [table.insert], [row.exists], [row.get],
    [row.increment], [row.deleteCells], [row.delete] and the read stream. *)

Module Store.

(** A cell version: its value and its write timestamp in microseconds. *)
Record cell := Cell { cell_value : value; cell_timestamp : Z }.

Inductive table_id := Primary | Metadata.

(** column qualifier -> versions, newest first *)
Abbreviation family := (gmap string (list cell)).
(** family name -> columns *)
Abbreviation row := (gmap string (gmap string (list cell))).
(** row key -> row; a row exists exactly while it holds a cell *)
Abbreviation table := (gmap string (gmap string (gmap string (list cell)))).

(** The requests a client dispatches. A column is given as the pair of the
    family and the qualifier that the client joins with a colon. *)
Inductive request :=
| Insert (t : table_id) (rowKey fam : string) (data : gmap string value)
| Exists (t : table_id) (rowKey : string)
| Get (t : table_id) (rowKey : string) (column : option (string * string))
| Increment (t : table_id) (rowKey fam col : string) (delta : Z)
| DeleteCells (t : table_id) (rowKey fam col : string)
| DeleteRow (t : table_id) (rowKey : string)
| Scan (t : table_id).

Record store := Store {
  primary : table;
  metadata : table;
  log : list request;               (* the dispatched requests, oldest first *)
  fault : request -> option error;  (* the requests the store rejects *)
  clock : Z                         (* microseconds; stamps written cells *)
}.

Definition get_table (t : table_id) (st : store) : table :=
  match t with Primary => primary st | Metadata => metadata st end.

Definition set_table (t : table_id) (tb : table) (st : store) : store :=
  match t with
  | Primary => Store tb (metadata st) (log st) (fault st) (clock st)
  | Metadata => Store (primary st) tb (log st) (fault st) (clock st)
  end.

Definition record (req : request) (st : store) : store :=
  Store (primary st) (metadata st) (log st ++ [req]) (fault st) (clock st).

(** Computations against the store: state passing with exceptions. *)
Definition M (A : Type) : Type := store -> result A * store.

Definition ret {A} (a : A) : M A := fun st => (Return a, st).

Definition bind {A B} (m : M A) (k : A -> M B) : M B :=
  fun st =>
    match m st with
    | (Return a, st') => k a st'
    | (Throw e, st') => (Throw e, st')
    end.

(** A promise is dispatched when its call is evaluated and settles with the
    outcome of the call; [await] raises a rejection. *)
Definition promise (A : Type) : Type := result A.

Definition dispatch {A} (m : M A) : M (promise A) :=
  fun st => let (r, st') := m st in (Return r, st').

Definition await {A} (p : promise A) : M A := fun st => (p, st).

(** [Promise.all]: the results in order, or the first rejection. *)
Fixpoint Promise_all {A} (ps : list (promise A)) : promise (list A) :=
  match ps with
  | [] => Return []
  | Return a :: ps' =>
      match Promise_all ps' with
      | Return l => Return (a :: l)
      | Throw e => Throw e
      end
  | Throw e :: _ => Throw e
  end.

(** A request is logged, then rejected by a fault or served. *)
Definition serve {A} (req : request) (effect : store -> result A * store) : M A :=
  fun st =>
    let st := record req st in
    match fault st req with
    | Some e => (Throw e, st)
    | None => effect st
    end.

Definition lookup_cells (tb : table) (rowKey fam col : string) : option (list cell) :=
  match tb !! rowKey with
  | Some r => match r !! fam with Some f => f !! col | None => None end
  | None => None
  end.

(** The family [fam] of row [rowKey] becomes [f]; a row left without cells
    is gone. *)
Definition put_family (tb : table) (rowKey fam : string) (f : family) : table :=
  let r := default ∅ (tb !! rowKey) in
  let r' := if decide (f = ∅) then delete fam r else <[fam := f]> r in
  if decide (r' = ∅) then delete rowKey tb else <[rowKey := r']> tb.

Definition family_of (tb : table) (rowKey fam : string) : family :=
  default ∅ (default ∅ (tb !! rowKey) !! fam).

(** [row.exists()] *)
Definition row_exists (t : table_id) (rowKey : string) : M bool :=
  serve (Exists t rowKey)
    (fun st => (Return (bool_decide (is_Some (get_table t st !! rowKey))), st)).

(** [table.insert([{key, data: {[fam]: data}}])]: a new version of each
    given column. *)
Definition table_insert (t : table_id) (rowKey fam : string)
    (data : gmap string value) : M unit :=
  serve (Insert t rowKey fam data)
    (fun st =>
       let tb := get_table t st in
       let written := (fun v => [Cell v (clock st)]) <$> data in
       let f := union_with (fun new old => Some (app new old)) written
                  (family_of tb rowKey fam) in
       (Return tt, set_table t (put_family tb rowKey fam f) st)).

(** [row.increment(`${fam}:${col}`, delta)]: an absent cell counts from 0. *)
Definition row_increment (t : table_id) (rowKey fam col : string) (delta : Z) : M unit :=
  serve (Increment t rowKey fam col delta)
    (fun st =>
       let tb := get_table t st in
       let f := family_of tb rowKey fam in
       let write n old :=
         (Return tt,
          set_table t
            (put_family tb rowKey fam (<[col := Cell (Num n) (clock st) :: old]> f)) st) in
       match f !! col with
       | None => write delta []
       | Some [] => write delta []
       | Some (Cell (Val (JNum n)) ts :: old) => write (n + delta) (Cell (Num n) ts :: old)
       | Some (Cell _ _ :: _) =>
           (Throw (Error "Error" "increment of a cell that holds no integer"), st)
       end).

(** [row.deleteCells([`${fam}:${col}`])] *)
Definition row_deleteCells (t : table_id) (rowKey fam col : string) : M unit :=
  serve (DeleteCells t rowKey fam col)
    (fun st =>
       let tb := get_table t st in
       match tb !! rowKey with
       | Some _ =>
           (Return tt,
            set_table t (put_family tb rowKey fam (delete col (family_of tb rowKey fam))) st)
       | None => (Return tt, st)
       end).

(** [row.delete()] *)
Definition row_delete (t : table_id) (rowKey : string) : M unit :=
  serve (DeleteRow t rowKey)
    (fun st => (Return tt, set_table t (delete rowKey (get_table t st)) st)).

(** The data of a row restricted to the requested column. *)
Definition restrict (column : option (string * string)) (r : row) : row :=
  match column with
  | None => r
  | Some (fam, col) =>
      match r !! fam with
      | Some f =>
          match f !! col with
          | Some cs => {[ fam := {[ col := cs ]} ]}
          | None => ∅
          end
      | None => ∅
      end
  end.

(** [row.get(columns)]: resolves with a one-element array holding the row
    data; an absent row is reported by an error whose message starts with
    [Unknown row]. *)
Definition row_get (t : table_id) (rowKey : string)
    (column : option (string * string)) : M (option (list row)) :=
  serve (Get t rowKey column)
    (fun st =>
       match get_table t st !! rowKey with
       | Some r => (Return (Some [restrict column r]), st)
       | None => (Throw (Error "RowError" ("Unknown row: " ++ rowKey ++ ".")), st)
       end).

(** [table.createReadStream(...)]: every row, with its key. *)
Definition scan (t : table_id) : M (list (string * row)) :=
  serve (Scan t) (fun st => (Return (map_to_list (get_table t st)), st)).

End Store.
Import Store.

Notation "x <- m ;; k" := (Store.bind m (fun x => k))
  (at level 100, m at next level, right associativity).

(** ** Tables and column families

    What [init] asks of the store: whether a table or a family exists, and
    to create it. Every call is taken to succeed. *)

Module Admin.

(** The garbage-collection rule a family is created with. *)
Record rule := Rule {
  versions : Z;
  age : option Z;        (* seconds *)
  union : bool
}.

(** table name -> family id -> rule *)
Abbreviation instance := (gmap string (gmap string rule)).

(** [table.exists()] *)
Definition table_exists (i : instance) (name : string) : bool :=
  bool_decide (is_Some (i !! name)).

(** [table.create(...)]: a table without families. *)
Definition table_create (i : instance) (name : string) : instance :=
  <[name := ∅]> i.

(** [family.exists()] *)
Definition family_exists (i : instance) (name fam : string) : bool :=
  match i !! name with
  | Some fams => bool_decide (is_Some (fams !! fam))
  | None => false
  end.

(** [family.create({rule})] *)
Definition family_create (i : instance) (name fam : string) (r : rule) : instance :=
  <[name := <[fam := r]> (default ∅ (i !! name))]> i.

End Admin.

(** ** The client: what both revisions share *)

Module Client.

Definition COUNTS : string := "counts".

(** The fields [init] sets and the methods read. *)
Record config := Config {
  cfName : string;
  cfNameMetadata : string;
  defaultColumn : string
}.

(** [(value && typeof value === "object") ? JSON.stringify(value) : value] *)
Definition sanitizedValue (v : value) : value :=
  match v with
  | Val j => if truthy v && typeof_object v then Str (JSON.stringify j) else v
  | Undefined => v
  end.

(** [cleanedData[key] = sanitizedValue || ""] *)
Definition cleaned (v : value) : value := or_else (sanitizedValue v) (Str EmptyString).

(** [insert(table, cfName, rowKey, data)]; an absent table or data is [None]. *)
Definition insert (tb : option table_id) (cfName rowKey : string)
    (data : option (gmap string value)) : M unit :=
  match tb, data with
  | Some t, Some d =>
      if String.eqb rowKey EmptyString then ret tt
      else table_insert t rowKey cfName (cleaned <$> d)
  | _, _ => ret tt
  end.

(** [getParsedValue(value)]: [JSON.parse] first turns its argument into a
    string. *)
Definition getParsedValue (v : value) : value :=
  match JSON.parse (to_string v) with
  | Some j => Val j
  | None => v
  end.

(** What [retrieve] resolves with. *)
Inductive retrieved :=
| RUndefined
| RNull
| RValue (v : value)                 (* [singleResult.value] *)
| RCell (c : cell)                   (* [singleResult], with [complete] *)
| RRow (m : gmap string value)        (* column -> parsed value *)
| RRowComplete (m : gmap string cell).

Definition retrieved_truthy (r : retrieved) : bool :=
  match r with
  | RUndefined | RNull => false
  | RValue v => truthy v
  | RCell _ | RRow _ | RRowComplete _ => true
  end.

(** [columnName ? `${cfName}:${columnName}` : undefined], with
    [columnName = column ? column || this.defaultColumn : null] *)
Definition identifier (cfName : string) (column : option string) : option (string * string) :=
  match column with
  | Some (String c r) => Some (cfName, String c r)
  | Some EmptyString | None => None
  end.

(** [retrieve(table, cfName, rowKey, column, complete)] *)
Definition retrieve (tb : option table_id) (cfName rowKey : string)
    (column : option string) (complete : bool) : M retrieved :=
  match tb with
  | None => ret RUndefined
  | Some t =>
      if String.eqb rowKey EmptyString then ret RUndefined
      else
        let columnName :=
          match column with
          | Some (String c r) => Some (String c r)
          | Some EmptyString | None => None
          end in
        fun st =>
          match row_get t rowKey (identifier cfName column) st with
          | (Throw error, st') =>
              if negb (startsWith "Unknown row" (err_message error))
              then (Throw error, st')
              else (Return RNull, st')
          | (Return None, st') => (Return RNull, st')
          | (Return (Some rowGet), st') =>
              match columnName with
              | Some columnName =>
                  let singleResult :=
                    match head rowGet with
                    | Some data =>
                        match data !! cfName with
                        | Some f =>
                            match f !! columnName with
                            | Some cs => head cs
                            | None => None
                            end
                        | None => None
                        end
                    | None => None
                    end in
                  match singleResult with
                  | Some c =>
                      (Return (if complete then RCell c else RValue (cell_value c)), st')
                  | None =>
                      if complete then (Return RUndefined, st')
                      else (Throw (TypeError "Cannot read property 'value' of undefined"), st')
                  end
              | None =>
                  let rowData : gmap string (list cell) :=
                    match head rowGet with
                    | Some data => default ∅ (data !! cfName)
                    | None => ∅
                    end in
                  let kept : gmap string cell :=
                    omap (fun cs => match head cs with
                                    | Some c => if truthy (cell_value c) then Some c else None
                                    | None => None
                                    end) rowData in
                  (Return (if complete then RRowComplete kept
                           else RRow ((fun c => getParsedValue (cell_value c)) <$> kept)), st')
              end
          end
  end.

(** [get(rowKey, column)] *)
Definition get (cfg : config) (rowKey : string) (column : option string) : M retrieved :=
  if String.eqb rowKey EmptyString then ret RUndefined
  else
    let columnName := str_or column (str_or (Some (defaultColumn cfg)) EmptyString) in
    retrieve (Some Primary) (cfName cfg) rowKey (Some columnName) false.

(** [getRow(rowKey)] *)
Definition getRow (cfg : config) (rowKey : string) : M retrieved :=
  retrieve (Some Primary) (cfName cfg) rowKey None false.

(** [count()]: [counts || 0] *)
Definition count (cfg : config) : M retrieved :=
  counts <- retrieve (Some Metadata) (cfNameMetadata cfg) COUNTS (Some COUNTS) false ;;
  ret (if retrieved_truthy counts then counts else RValue (Num 0)).

(** [delete(rowKey, column)] *)
Definition delete (cfg : config) (rowKey : string) (column : option string) : M unit :=
  if String.eqb rowKey EmptyString then ret tt
  else
    let columnName := str_or column (str_or (Some (defaultColumn cfg)) EmptyString) in
    _ <- row_deleteCells Primary rowKey (cfName cfg) columnName ;;
    rowExists <- row_exists Primary rowKey ;;
    if negb rowExists
    then row_increment Metadata COUNTS (cfNameMetadata cfg) COUNTS (-1)
    else ret tt.

(** [deleteRow(rowKey)] *)
Definition deleteRow (cfg : config) (rowKey : string) : M (list unit) :=
  if String.eqb rowKey EmptyString then ret []
  else
    p1 <- dispatch (row_increment Metadata COUNTS (cfNameMetadata cfg) COUNTS (-1)) ;;
    p2 <- dispatch (row_delete Primary rowKey) ;;
    await (Promise_all [p1; p2]).

(** [if (ttl)] for an optional number. *)
Definition ttl_given (ttl : option Z) : option Z :=
  match ttl with
  | Some n => if n =? 0 then None else Some n
  | None => None
  end.

(** The calls of a [forEach] body, in order. *)
Fixpoint for_each {A B} (f : A -> M B) (l : list A) : M (list B) :=
  match l with
  | [] => ret []
  | a :: l' => b <- f a ;; bs <- for_each f l' ;; ret (b :: bs)
  end.

(** [Object.keys(o)] *)
Definition keys (o : gmap string value) : list string := (map_to_list o).*1.

End Client.

(** ** The revision of [src/lib/BigtableClient.ts] *)

Module Lib.
Import Client.

(** [`${rowKey}#${this.cfName}:${columnName}`] *)
Definition ttlRowKey (cfg : config) (rowKey columnName : string) : string :=
  rowKey ++ "#" ++ cfName cfg ++ ":" ++ columnName.

(** The marker write of a TTL-bearing call: [insert(tableMetadata, ..., {ttl})]. *)
Definition insert_ttl (cfg : config) (rowKey columnName : string) (ttl : Z) : M unit :=
  insert (Some Metadata) (cfNameMetadata cfg) (ttlRowKey cfg rowKey columnName)
    (Some {[ "ttl" := Num ttl ]}).

Definition increment_counts (cfg : config) (delta : Z) : M unit :=
  row_increment Metadata COUNTS (cfNameMetadata cfg) COUNTS delta.

(** [set(rowKey, value, ttl, column)] *)
Definition set (cfg : config) (rowKey : string) (v : value) (ttl : option Z)
    (column : option string) : M (list unit) :=
  let columnName := str_or column (defaultColumn cfg) in
  let data : gmap string value := {[ columnName := v ]} in
  p1 <- dispatch (insert (Some Primary) (cfName cfg) rowKey (Some data)) ;;
  rowExists <- row_exists Primary rowKey ;;
  ps2 <- (if negb rowExists
          then p <- dispatch (increment_counts cfg 1) ;; ret [p]
          else ret []) ;;
  ps3 <- (match ttl_given ttl with
          | Some t => p <- dispatch (insert_ttl cfg rowKey columnName t) ;; ret [p]
          | None => ret []
          end) ;;
  await (Promise_all (p1 :: ps2 ++ ps3)%list).

(** [multiSet(rowKey, columnsObject, ttl)] *)
Definition multiSet (cfg : config) (rowKey : string) (columnsObject : gmap string value)
    (ttl : option Z) : M (list unit) :=
  match keys columnsObject with
  | [] => ret []
  | ks =>
      p1 <- dispatch (insert (Some Primary) (cfName cfg) rowKey (Some columnsObject)) ;;
      rowExists <- row_exists Primary rowKey ;;
      ps2 <- (if negb rowExists
              then p <- dispatch (increment_counts cfg 1) ;; ret [p]
              else ret []) ;;
      ps3 <- (match ttl_given ttl with
              | Some t =>
                  for_each (fun columnName => dispatch (insert_ttl cfg rowKey columnName t)) ks
              | None => ret []
              end) ;;
      await (Promise_all (p1 :: ps2 ++ ps3)%list)
  end.

(** [increase] and [decrease] differ in the sign of the step only. *)
Definition step_by (delta : Z) (cfg : config) (rowKey : string) (column : option string)
    (ttl : option Z) : M (list unit) :=
  if String.eqb rowKey EmptyString then ret []
  else
    let columnName := str_or column (str_or (Some (defaultColumn cfg)) EmptyString) in
    p1 <- dispatch (row_increment Primary rowKey (cfName cfg) columnName delta) ;;
    rowExists <- row_exists Primary rowKey ;;
    ps2 <- (if negb rowExists
            then p <- dispatch (increment_counts cfg 1) ;; ret [p]
            else ret []) ;;
    ps3 <- (match ttl_given ttl with
            | Some t => p <- dispatch (insert_ttl cfg rowKey columnName t) ;; ret [p]
            | None => ret []
            end) ;;
    await (Promise_all (p1 :: ps2 ++ ps3)%list).

Definition increase := step_by 1.
Definition decrease := step_by (-1).

(** *** The sweep: [deleteExpiredData] *)

(** [ToNumber] of a cell value; [None] is [NaN]. A string counts when it
    is empty or an integer literal. Cells never hold objects, whose
    coercion is not modelled. *)
Definition to_number (v : value) : option Z :=
  match v with
  | Undefined => None
  | Val JNull => Some 0
  | Val (JBool b) => Some (if b then 1 else 0)
  | Val (JNum n) => Some n
  | Val (JStr s) => if String.eqb s EmptyString then Some 0 else JSON.number_of_token s
  | Val (JArr _) | Val (JObj _) => None
  end.

Record metaCell := MetaCell {
  rowKey : string;
  value : JS.value;
  timestamp : Z          (* microseconds *)
}.

(** The [etl] of the sweep, on one scanned row [(id, data)]. *)
Definition etl (cfg : config) (scanned : string * row) : result (option metaCell) :=
  match scanned.2 !! cfNameMetadata cfg with
  | None => Throw (TypeError "Cannot read property 'ttl' of undefined")
  | Some f =>
      match f !! "ttl" with
      | None => Return None
      | Some [] => Throw (TypeError "Cannot read property 'value' of undefined")
      | Some (c :: _) => Return (Some (MetaCell scanned.1 (cell_value c) (cell_timestamp c)))
      end
  end.

Fixpoint scanCells (etl : string * row -> result (option metaCell))
    (rows : list (string * row)) : result (list (option metaCell)) :=
  match rows with
  | [] => Return []
  | r :: rows' =>
      match etl r with
      | Return m =>
          match scanCells etl rows' with
          | Return ms => Return (m :: ms)
          | Throw e => Throw e
          end
      | Throw e => Throw e
      end
  end.

Definition Qltb (a b : Q) : bool := negb (Qle_bool b a).

(** [(metaCell.timestamp / 1000) < (Date.now() - (metaCell.value * 1000))];
    a comparison with [NaN] is false. *)
Definition expired (now : Z) (m : metaCell) : bool :=
  match to_number (value m) with
  | Some v => Qltb (inject_Z (timestamp m) / inject_Z 1000) (inject_Z (now - v * 1000))
  | None => false
  end.

(** [.filter(m => !!m).filter(expired).map(m => m.rowKey)] *)
Definition filteredRowKeys (now : Z) (results : list (option metaCell)) : list string :=
  rowKey <$> filter (fun m => expired now m = true) (omap id results).

(** [{key: rowKey.split("#")[0], column: rowKey.split(":")[1]}] *)
Definition owner (rowKey : string) : string * option string :=
  (List.hd EmptyString (split "#" rowKey), split ":" rowKey !! 1%nat).

(** One sweep at time [now]: the scan, the filter, then a [delete] of every
    owning cell and a row delete of every expired marker. The calls are
    made in the order of the two [map]s; each [delete] is run to its end
    where it is called. *)
Definition deleteExpiredData (cfg : config) (now : Z) : M (list unit) :=
  rows <- scan Metadata ;;
  results <- await (scanCells (etl cfg) rows) ;;
  let filtered := filteredRowKeys now results in
  promiseDeletions <-
    for_each (fun cell => dispatch (Client.delete cfg cell.1 cell.2)) (map owner filtered) ;;
  promiseMetadataDeletions <-
    for_each (fun rowKey => dispatch (row_delete Metadata rowKey)) filtered ;;
  await (Promise_all (promiseDeletions ++ promiseMetadataDeletions)%list).

(** *** [ttl(rowKey, column)] at time [now]

    [toFixed(0)] rounds to the nearest integer, and a difference that is
    negative or [NaN] gives [0]. *)

Definition ttl (cfg : config) (now : Z) (rowKey : string) (column : option string)
    : M Z :=
  let columnName := str_or column (str_or (Some (defaultColumn cfg)) EmptyString) in
  let ttlRowKey := ttlRowKey cfg rowKey columnName in
  ttl <- retrieve (Some Metadata) (cfNameMetadata cfg) ttlRowKey (Some "ttl") false ;;
  rowComplete <- retrieve (Some Primary) (cfName cfg) rowKey (Some columnName) true ;;
  match rowComplete with
  | RNull => await (Throw (TypeError "Cannot read property 'timestamp' of null"))
  | RUndefined => await (Throw (TypeError "Cannot read property 'timestamp' of undefined"))
  | RCell c =>
      let ttl_ms :=
        match ttl with
        | RValue v => option_map (Z.mul 1000) (to_number v)
        | RNull => Some 0
        | _ => None
        end in
      match ttl_ms with
      | Some ms =>
          let diff := (inject_Z (cell_timestamp c) / inject_Z 1000 - inject_Z (now - ms))%Q in
          let diffSec := Qfloor (diff / inject_Z 1000 + (1 # 2))%Q in
          ret (if 0 <=? diffSec then diffSec else 0)
      | None => ret 0
      end
  | _ => ret 0
  end.

(** *** The sweep timer: [runJob] and [close] *)

Record scheduler := Scheduler {
  tov : option nat;      (* [this.tov]: the handle of the last timeout set *)
  armed : list nat;      (* timeouts set and neither fired nor cleared *)
  fresh : nat;           (* the next handle *)
  running : nat;         (* sweeps begun and not yet settled *)
  started : nat          (* sweeps begun so far *)
}.

Definition clearTimeout (h : nat) (s : scheduler) : scheduler :=
  Scheduler (tov s) (filter (fun h' => h' <> h) (armed s)) (fresh s) (running s) (started s).

(** [runJob()]: [this.tov = setTimeout(..., this.intervalInMs)] *)
Definition runJob (s : scheduler) : scheduler :=
  Scheduler (Some (fresh s)) (armed s ++ [fresh s]) (S (fresh s)) (running s) (started s).

(** [close()]: [if (this.tov) clearTimeout(this.tov)] *)
Definition close (s : scheduler) : scheduler :=
  match tov s with
  | Some h => clearTimeout h s
  | None => s
  end.

(** The scheduler after the constructor, and after [init()] called [runJob]. *)
Definition constructed : scheduler := Scheduler None [] 0 0 0.
Definition initialised : scheduler := runJob constructed.

Inductive event :=
| Fire (h : nat)   (* timeout [h] elapses: its callback calls [deleteExpiredData] *)
| Settle           (* a running sweep resolves or rejects: both call [runJob] *)
| Close.           (* [close()] is called *)

Definition step (e : event) (s : scheduler) : option scheduler :=
  match e with
  | Fire h =>
      if bool_decide (h ∈ armed s)
      then Some (Scheduler (tov s) (filter (fun h' => h' <> h) (armed s)) (fresh s)
                   (S (running s)) (S (started s)))
      else None
  | Settle =>
      match running s with
      | S n => Some (runJob (Scheduler (tov s) (armed s) (fresh s) n (started s)))
      | O => None
      end
  | Close => Some (close s)
  end.

Fixpoint run (es : list event) (s : scheduler) : option scheduler :=
  match es with
  | [] => Some s
  | e :: es' =>
      match step e s with
      | Some s' => run es' s'
      | None => None
      end
  end.

(** *** [multiAdd(rowKey, data, ttl)]

    [row.createRules] is the one store call of the client that sends
    several increments in one request; it is a parameter here. A rule is
    the family, the qualifier and the increment. *)

Section MultiAdd.

Variable createRules : string -> list (string * string * Z) -> M unit.

(** The [map] of the column names: a rule for a number, [undefined]
    otherwise. *)
Definition mapped_rules (cfg : config) (data : gmap string JS.value)
    : list (option (string * string * Z)) :=
  map (fun key =>
         match data !! key with
         | Some (Val (JNum n)) => Some (cfName cfg, key, n)
         | _ => None
         end) (keys data).

(** [.filter((rule) => rule.increment !== 0)]: reading [increment] of an
    [undefined] rule throws. *)
Fixpoint filter_rules (rs : list (option (string * string * Z)))
    : result (list (string * string * Z)) :=
  match rs with
  | [] => Return []
  | None :: _ => Throw (TypeError "Cannot read property 'increment' of undefined")
  | Some r :: rs' =>
      match filter_rules rs' with
      | Return l => Return (if r.2 =? 0 then l else r :: l)
      | Throw e => Throw e
      end
  end.

Definition multiAdd (cfg : config) (rowKey : string) (data : option (gmap string JS.value))
    (ttl : option Z) : M (list unit) :=
  match data with
  | None => ret []
  | Some data =>
      let columnNames := keys data in
      rules <- await (filter_rules (mapped_rules cfg data)) ;;
      ps1 <- (match rules with
              | [] => ret []
              | _ :: _ => p <- dispatch (createRules rowKey rules) ;; ret [p]
              end) ;;
      ps2 <- (match ttl_given ttl with
              | Some t =>
                  for_each (fun columnName => dispatch (insert_ttl cfg rowKey columnName t))
                    columnNames
              | None => ret []
              end) ;;
      await (Promise_all (ps1 ++ ps2)%list)
  end.

End MultiAdd.

End Lib.

(** ** The revision with sharded marker keys *)

Module Sharded.
Import Client.

Definition DEFAULT_CLUSTER_COUNT : Z := 3.
Definition DEFAULT_MURMUR_SEED : Z := 1.

(** The fields of the client that the key encoder reads. *)
Record client := Client { clusterCount : Z; murmurSeed : Z }.

(** The constructor: [clusterCount || DEFAULT_CLUSTER_COUNT] and
    [murmurSeed || DEFAULT_MURMUR_SEED]; an absent argument is [None]. *)
Definition default_to (d : Z) (arg : option Z) : Z :=
  match arg with
  | Some n => if n =? 0 then d else n
  | None => d
  end.

Definition constructor (clusterCount murmurSeed : option Z) : client :=
  Client (default_to DEFAULT_CLUSTER_COUNT clusterCount)
         (default_to DEFAULT_MURMUR_SEED murmurSeed).

(** [Date.now() + (1000 * ttl)] *)
Definition deleteTimestamp (now ttl : Z) : Z := now + 1000 * ttl.

(** [murmur.v3(deleteTimestamp.toString(), this.murmurSeed) % this.clusterCount];
    [%] is the remainder with the sign of the dividend. *)
Definition salt (c : client) (deleteTimestamp : Z) : Z :=
  Z.rem (Murmur.v3 (number_to_string deleteTimestamp) (murmurSeed c))
        (clusterCount c).

(** [getTTLRowKey(ttl)] at time [now]. *)
Definition getTTLRowKey (c : client) (now ttl : Z) : string :=
  let deleteTimestamp := deleteTimestamp now ttl in
  let salt := salt c deleteTimestamp in
  "ttl#" ++ number_to_string salt ++ "#" ++ number_to_string deleteTimestamp.

(** [`${this.cfName}#${rowKey}#${columnName}`] *)
Definition columnQualifier (cfg : config) (rowKey columnName : string) : string :=
  cfName cfg ++ "#" ++ rowKey ++ "#" ++ columnName.

Definition increment_counts (cfg : config) (delta : Z) : M unit :=
  row_increment Metadata COUNTS (cfNameMetadata cfg) COUNTS delta.

(** The marker write that opens a TTL-bearing call: one marker row, one
    column per owning column. *)
Definition insert_ttl (c : client) (cfg : config) (now : Z) (rowKey : string)
    (columnNames : list string) (ttl : option Z) : M (list (promise unit)) :=
  match ttl_given ttl with
  | Some t =>
      let ttlRowKey := getTTLRowKey c now t in
      let ttlData : gmap string value :=
        list_to_map (map (fun columnName => (columnQualifier cfg rowKey columnName, Num t))
                         (rev columnNames)) in
      p <- dispatch (insert (Some Metadata) (cfNameMetadata cfg) ttlRowKey (Some ttlData)) ;;
      ret [p]
  | None => ret []
  end.

(** [set(rowKey, value, ttl, column)] at time [now] *)
Definition set (c : client) (cfg : config) (now : Z) (rowKey : string) (v : value)
    (ttl : option Z) (column : option string) : M (list unit) :=
  let columnName := str_or column (defaultColumn cfg) in
  let data : gmap string value := {[ columnName := v ]} in
  ps1 <- insert_ttl c cfg now rowKey [columnName] ttl ;;
  rowExists <- row_exists Primary rowKey ;;
  ps2 <- (if negb rowExists
          then p <- dispatch (increment_counts cfg 1) ;; ret [p]
          else ret []) ;;
  p3 <- dispatch (insert (Some Primary) (cfName cfg) rowKey (Some data)) ;;
  await (Promise_all (ps1 ++ ps2 ++ [p3])%list).

(** [multiSet(rowKey, columnsObject, ttl)] at time [now] *)
Definition multiSet (c : client) (cfg : config) (now : Z) (rowKey : string)
    (columnsObject : gmap string value) (ttl : option Z) : M (list unit) :=
  match keys columnsObject with
  | [] => ret []
  | columnNames =>
      ps1 <- insert_ttl c cfg now rowKey columnNames ttl ;;
      rowExists <- row_exists Primary rowKey ;;
      ps2 <- (if negb rowExists
              then p <- dispatch (increment_counts cfg 1) ;; ret [p]
              else ret []) ;;
      p3 <- dispatch (insert (Some Primary) (cfName cfg) rowKey (Some columnsObject)) ;;
      await (Promise_all (ps1 ++ ps2 ++ [p3])%list)
  end.

(** [increase] and [decrease] differ in the sign of the step only. *)
Definition step_by (delta : Z) (c : client) (cfg : config) (now : Z) (rowKey : string)
    (column : option string) (ttl : option Z) : M (list unit) :=
  if String.eqb rowKey EmptyString then ret []
  else
    let columnName := str_or column (str_or (Some (defaultColumn cfg)) EmptyString) in
    ps1 <- insert_ttl c cfg now rowKey [columnName] ttl ;;
    rowExists <- row_exists Primary rowKey ;;
    ps2 <- (if negb rowExists
            then p <- dispatch (increment_counts cfg 1) ;; ret [p]
            else ret []) ;;
    p3 <- dispatch (row_increment Primary rowKey (cfName cfg) columnName delta) ;;
    await (Promise_all (ps1 ++ ps2 ++ [p3])%list).

Definition increase := step_by 1.
Definition decrease := step_by (-1).

(** *** [multiAdd(rowKey, data, ttl)] at time [now]

    [row.createRules] is a parameter, as in [Lib.multiAdd]. [Object.keys]
    of an absent [data] throws, which leaves the [!data] test that follows
    it without effect. *)

Section MultiAdd.

Variable createRules : string -> list (string * string * Z) -> M unit.

(** [.map(...).filter((rule) => !!rule && rule.increment !== 0)] *)
Definition rules (cfg : config) (data : gmap string value) : list (string * string * Z) :=
  omap (fun key =>
          match data !! key with
          | Some (Val (JNum n)) => if n =? 0 then None else Some (cfName cfg, key, n)
          | _ => None
          end) (keys data).

Definition multiAdd (c : client) (cfg : config) (now : Z) (rowKey : string)
    (data : option (gmap string value)) (ttl : option Z) : M (list unit) :=
  match data with
  | None => await (Throw (TypeError "Cannot convert undefined or null to object"))
  | Some data =>
      match keys data with
      | [] => ret []
      | columnNames =>
          ps1 <- insert_ttl c cfg now rowKey columnNames ttl ;;
          ps2 <- (match rules cfg data with
                  | [] => ret []
                  | rs => p <- dispatch (createRules rowKey rs) ;; ret [p]
                  end) ;;
          await (Promise_all (ps1 ++ ps2)%list)
      end
  end.

End MultiAdd.

(** *** The constructor's timing fields and [init] *)

Definition DEFAULT_TTL_SCAN_INTERVAL_MS : Z := 5000.
Definition DEFAULT_MIN_JITTER_MS : Z := 2000.
Definition DEFAULT_MAX_JITTER_MS : Z := 30000.
Definition DEFAULT_MAX_VERSIONS : Z := 1.
Definition DEFAULT_COLUMN : string := "value".
Definition DEFAULT_COLUMN_FAMILY : string := "default".

Record timing := Timing { intervalInMs : Z; minJitterMs : Z; maxJitterMs : Z }.

(** [intervalInMs || DEFAULT_TTL_SCAN_INTERVAL_MS] and the like. *)
Definition constructor_timing (intervalInMs minJitterMs maxJitterMs : option Z) : timing :=
  Timing (default_to DEFAULT_TTL_SCAN_INTERVAL_MS intervalInMs)
         (default_to DEFAULT_MIN_JITTER_MS minJitterMs)
         (default_to DEFAULT_MAX_JITTER_MS maxJitterMs).

(** [parseInt(x.toFixed(0), 10)]: the nearest integer, a half away from
    zero. *)
Definition to_fixed_0 (x : Q) : Z :=
  if Qle_bool 0 x then Qfloor (x + (1 # 2)) else - Qfloor (- x + (1 # 2)).

(** How [init] starts the sweep job: after a delay, or at once. *)
Inductive job_start :=
| After (startJitterMs : Z)    (* [setTimeout(() => this.job.run(), startJitterMs)] *)
| AtOnce.                      (* [this.job.run()] *)

(** The end of [init]; [random] is the draw of [Math.random()]. *)
Definition start_job (t : timing) (random : Q) : job_start :=
  if negb (minJitterMs t =? 0) && negb (maxJitterMs t =? 0)
  then
    let deltaJitterMs := to_fixed_0 (random * inject_Z (maxJitterMs t - minJitterMs t)) in
    After (minJitterMs t + deltaJitterMs)
  else AtOnce.

(** [BigtableClientConfig]; an absent field is [None]. *)
Record client_config := ClientConfig {
  name : string;
  columnFamily : option string;
  config_defaultColumn : option string;
  maxVersions : option Z;
  maxAgeSecond : option Z
}.

(** The fields [init] assigns. *)
Record fields := Fields {
  isInitialized : bool;
  table : option string;
  tableMetadata : option string;
  fields_config : option config;     (* [cfName], [cfNameMetadata], [defaultColumn] *)
  started : option job_start
}.

(** The fields after the constructor. *)
Definition constructed : fields := Fields false None None None None.

(** [init()] *)
Definition init (cc : client_config) (t : timing) (random : Q)
    (f : fields) (i : Admin.instance) : fields * Admin.instance :=
  if isInitialized f then (f, i)
  else
    let columnFamily := default DEFAULT_COLUMN_FAMILY (columnFamily cc) in
    let defaultColumn := default DEFAULT_COLUMN (config_defaultColumn cc) in
    let maxVersions := default DEFAULT_MAX_VERSIONS (maxVersions cc) in
    let rule :=
      match maxAgeSecond cc with
      | Some s => if s =? 0 then Admin.Rule maxVersions None false
                  else Admin.Rule maxVersions (Some s) true
      | None => Admin.Rule maxVersions None false
      end in
    let table := name cc in
    let i := if Admin.table_exists i table then i else Admin.table_create i table in
    let i := if Admin.family_exists i table columnFamily then i
             else Admin.family_create i table columnFamily rule in
    let tableMetadata := name cc ++ "_metadata" in
    let i := if Admin.table_exists i tableMetadata then i
             else Admin.table_create i tableMetadata in
    let cFamilyMetadata := columnFamily ++ "_metadata" in
    let i := if Admin.family_exists i tableMetadata cFamilyMetadata then i
             else Admin.family_create i tableMetadata cFamilyMetadata rule in
    (Fields true (Some table) (Some tableMetadata)
       (Some (Config columnFamily cFamilyMetadata defaultColumn))
       (Some (start_job t random)), i).

End Sharded.

(** ** Notions used to state the properties *)

(** The characters a printed number can begin with. *)
Definition number_start (c : ascii) : bool :=
  ((48 <=? JSON.code c)%N && (JSON.code c <=? 57)%N) || Ascii.eqb c "-".

Fixpoint all_chars (p : ascii -> bool) (s : string) : Prop :=
  match s with
  | EmptyString => True
  | String c r => p c = true /\ all_chars p r
  end.

(** What may follow a value: not a character of a number token. *)
Definition follows (rest : string) : Prop :=
  match rest with
  | EmptyString => True
  | String c _ => JSON.is_number_char c = false
  end.

(** The characters a printed value can begin with. *)
Definition value_start (c : ascii) : bool :=
  number_start c || Ascii.eqb c JSON.dquote || Ascii.eqb c "[" || Ascii.eqb c "{"
  || Ascii.eqb c "n" || Ascii.eqb c "t" || Ascii.eqb c "f".

(** The round trip of one value, with what follows it left over. *)
Definition parses_back (v : json) : Prop :=
  forall fuel rest,
    follows rest ->
    (2 * String.length (JSON.stringify v) <= fuel)%nat ->
    JSON.parse_value fuel (JSON.stringify v ++ rest) = Some (v, rest).

(** The character [c] occurs in [s]. *)
Fixpoint occurs (c : ascii) (s : string) : bool :=
  match s with
  | EmptyString => false
  | String x r => Ascii.eqb x c || occurs c r
  end.

(** The live-row counter: [0] while the [counts] row is absent, else the
    integer of its [counts] cell; [None] if there is no such integer. *)
Definition counter (cfg : Client.config) (st : store) : option Z :=
  match metadata st !! Client.COUNTS with
  | None => Some 0
  | Some _ =>
      match lookup_cells (metadata st) Client.COUNTS (Client.cfNameMetadata cfg)
              Client.COUNTS with
      | Some (Cell (Val (JNum n)) _ :: _) => Some n
      | _ => None
      end
  end.

(** A marker whose write time in milliseconds plus its TTL in milliseconds
    lies strictly before [now]. *)
Definition strictly_expired (now : Z) (m : Lib.metaCell) : Prop :=
  exists v, Lib.to_number (Lib.value m) = Some v
            /\ (inject_Z (Lib.timestamp m) / inject_Z 1000 + inject_Z (v * 1000)
                < inject_Z now)%Q.

(** A store without rows, requests or faults. *)
Definition empty_store : store := Store ∅ ∅ [] (fun _ => None) 1550000000000000.

(** The empty store after one cell was written. *)
Definition one_cell_store : store :=
  (Client.insert (Some Primary) "cf" "user:1" (Some {[ "name" := Str "alice" ]})
     empty_store).2.

Definition example_config : Client.config := Client.Config "cf" "cf_metadata" "value".

(** The scheduler states that [init] and the three events can lead to:
    one timeout armed and no sweep running, or none armed. *)
Definition scheduler_inv (s : Lib.scheduler) : Prop :=
  (Lib.running s = 0%nat
   /\ (Lib.armed s = [] \/ exists h, Lib.armed s = [h] /\ Lib.tov s = Some h))
  \/ (Lib.running s = 1%nat /\ Lib.armed s = []).

(** A store that rejects no request. *)
Definition fault_free (st : store) : Prop := forall req, fault st req = None.

Definition request_table (req : request) : table_id :=
  match req with
  | Insert t _ _ _ | Exists t _ | Get t _ _ | Increment t _ _ _ _
  | DeleteCells t _ _ _ | DeleteRow t _ | Scan t => t
  end.

(** The request that steps the live-row counter. *)
Definition increment_request (cfg : Client.config) (delta : Z) : request :=
  Increment Metadata Client.COUNTS (Client.cfNameMetadata cfg) Client.COUNTS delta.

(** The common shape of the row-creating calls of the sharded revision:
    the marker write, the existence check, the counter step, and then the
    primary write. *)
Definition check_then_write (cfg : Client.config) (markers : M (list (promise unit)))
    (rowKey : string) (write : M unit) : M (list unit) :=
  ps1 <- markers ;;
  rowExists <- row_exists Primary rowKey ;;
  ps2 <- (if negb rowExists
          then p <- dispatch (Sharded.increment_counts cfg 1) ;; ret [p]
          else ret []) ;;
  p3 <- dispatch write ;;
  await (Promise_all (ps1 ++ ps2 ++ [p3])%list).

(** The shape of the same calls in [src/lib/BigtableClient.ts]: the
    primary write comes first. *)
Definition write_then_check (cfg : Client.config) (rowKey : string) (write : M unit)
    (markers : M (list (promise unit))) : M (list unit) :=
  p1 <- dispatch write ;;
  rowExists <- row_exists Primary rowKey ;;
  ps2 <- (if negb rowExists
          then p <- dispatch (Lib.increment_counts cfg 1) ;; ret [p]
          else ret []) ;;
  ps3 <- markers ;;
  await (Promise_all (p1 :: ps2 ++ ps3)%list).

(** A computation that writes markers only: it leaves the primary table
    and the counter alone and sends requests to the metadata table. *)
Definition writes_markers (cfg : Client.config) (m : M (list (promise unit))) : Prop :=
  forall st, fault_free st ->
    (exists ps, (m st).1 = Return ps)
    /\ counter cfg (m st).2 = counter cfg st
    /\ primary (m st).2 = primary st
    /\ fault_free (m st).2
    /\ exists reqs, log (m st).2 = (log st ++ reqs)%list
                    /\ Forall (fun r => request_table r = Metadata) reqs.

(** A computation that leaves the metadata table alone and sends the
    requests [reqs]. *)
Definition writes_primary (w : M unit) (reqs : list request) : Prop :=
  forall st, fault_free st ->
    metadata (w st).2 = metadata st
    /\ fault_free (w st).2
    /\ log (w st).2 = (log st ++ reqs)%list.

(** ** Further notions used to state the properties *)

(** One table map extends another: every family of every table is kept,
    with its rule. *)
Definition instance_extends (i i' : Admin.instance) : Prop :=
  forall t fams fam r,
    i !! t = Some fams -> fams !! fam = Some r ->
    exists fams', i' !! t = Some fams' /\ fams' !! fam = Some r.

(** A stand-in for [row.createRules]: the increments, one after another. *)
Fixpoint increments_in_turn (rowKey : string) (rules : list (string * string * Z)) : M unit :=
  match rules with
  | [] => ret tt
  | (fam, col, n) :: rules' =>
      _ <- row_increment Primary rowKey fam col n ;; increments_in_turn rowKey rules'
  end.

(** The requests of a computation, whatever the store it starts from,
    all satisfy [P]. *)
Definition sends_only {A} (P : request -> Prop) (m : M A) : Prop :=
  forall st, exists reqs, log (m st).2 = (log st ++ reqs)%list /\ Forall P reqs.

(** The row [k] of the metadata table is a marker that is strictly
    expired at [now]. *)
Definition expired_marker (cfg : Client.config) (now : Z) (st : store) (k : string) : Prop :=
  exists c cs,
    lookup_cells (metadata st) k (Client.cfNameMetadata cfg) "ttl" = Some (c :: cs)
    /\ strictly_expired now (Lib.MetaCell k (cell_value c) (cell_timestamp c)).

(** What a sweep may send: the scan, cell deletions and row checks in the
    primary table, steps of the counter down, and row deletions of
    expired markers. *)
Definition sweep_request (cfg : Client.config) (now : Z) (st : store) (req : request) : Prop :=
  match req with
  | Scan Metadata => True
  | DeleteCells Primary _ fam _ => fam = Client.cfName cfg
  | Exists Primary _ => True
  | Increment Metadata _ _ _ _ => req = increment_request cfg (-1)
  | DeleteRow Metadata k => expired_marker cfg now st k
  | _ => False
  end.

(** * Properties *)

(** ** JSON: parsing inverts printing *)

#[local] Arguments String.append !_ _ /.

(** Induction on JSON values, through the elements of arrays and the
    members of objects. *)
Lemma json_ind (P : json -> Prop) :
  P JNull ->
  (forall b, P (JBool b)) ->
  (forall n, P (JNum n)) ->
  (forall s, P (JStr s)) ->
  (forall l, Forall P l -> P (JArr l)) ->
  (forall l, Forall (fun kv => P (snd kv)) l -> P (JObj l)) ->
  forall j, P j.
Proof.
  intros Hnull Hbool Hnum Hstr Harr Hobj.
  fix IH 1. intros [ | b | n | s | l | l ].
  - exact Hnull.
  - apply Hbool.
  - apply Hnum.
  - apply Hstr.
  - apply Harr. induction l as [ | v l IHl ]; constructor; [apply IH | exact IHl].
  - apply Hobj. induction l as [ | [k v] l IHl ]; constructor; [apply IH | exact IHl].
Qed.

Lemma append_nil_r (s : string) : s ++ EmptyString = s.
Proof. induction s as [ | c s IH ]; simpl; [reflexivity | now rewrite IH]. Qed.

Lemma append_assoc (a b c : string) : (a ++ b) ++ c = a ++ (b ++ c).
Proof. induction a as [ | x a IH ]; simpl; [reflexivity | now rewrite IH]. Qed.

Lemma length_append (a b : string) :
  String.length (a ++ b) = (String.length a + String.length b)%nat.
Proof. induction a as [ | x a IH ]; simpl; [reflexivity | now rewrite IH]. Qed.

(** *** Strings *)

Lemma parse_chars_quote_char (c : ascii) (tail : string) :
  JSON.parse_chars (JSON.quote_char c ++ tail)
  = JSON.cons_char c (JSON.parse_chars tail).
Proof.
  destruct c as [[] [] [] [] [] [] [] []]; reflexivity.
Qed.

Lemma parse_chars_quote_chars (s rest : string) :
  JSON.parse_chars (JSON.quote_chars s ++ rest) = Some (s, rest).
Proof.
  induction s as [ | c s IH ]; simpl.
  - reflexivity.
  - rewrite append_assoc, parse_chars_quote_char, IH. reflexivity.
Qed.

(** *** Numbers *)

Lemma string_of_uint_digits (d : Decimal.uint) :
  all_chars number_start (NilEmpty.string_of_uint d).
Proof. induction d; simpl; auto. Qed.

Lemma nilzero_string_of_uint_digits (d : Decimal.uint) :
  all_chars number_start (NilZero.string_of_uint d).
Proof.
  destruct d; try exact (string_of_uint_digits _).
  simpl; auto.
Qed.

Lemma number_to_string_chars (n : Z) : all_chars number_start (number_to_string n).
Proof.
  unfold number_to_string.
  destruct n as [ | p | p ]; simpl.
  - auto.
  - apply nilzero_string_of_uint_digits.
  - split; [reflexivity | apply nilzero_string_of_uint_digits].
Qed.

Lemma number_to_string_nonempty (n : Z) :
  exists c r, number_to_string n = String c r /\ number_start c = true.
Proof.
  pose proof (number_to_string_chars n) as H.
  unfold number_to_string in *.
  destruct n as [ | p | p ]; simpl in *.
  - eauto.
  - pose proof (Unsigned.to_uint_nonnil p) as Hnil.
    destruct (Pos.to_uint p); try congruence; simpl in *; destruct H; eauto.
  - eauto.
Qed.

Lemma number_start_is_number_char c :
  number_start c = true -> JSON.is_number_char c = true.
Proof.
  unfold number_start, JSON.is_number_char. intros H.
  destruct ((48 <=? JSON.code c)%N && (JSON.code c <=? 57)%N); simpl in *; [reflexivity | ].
  rewrite H. reflexivity.
Qed.

Lemma span_number_app (tok rest : string) :
  all_chars number_start tok -> follows rest ->
  JSON.span_number (tok ++ rest) = (tok, rest).
Proof.
  intros Htok Hrest. induction tok as [ | c tok IH ]; simpl in *.
  - destruct rest as [ | c r ]; simpl in *; [reflexivity | now rewrite Hrest].
  - destruct Htok as [Hc Htok].
    rewrite (number_start_is_number_char _ Hc), (IH Htok). reflexivity.
Qed.

Lemma to_int_not_nil (n : Z) :
  Z.to_int n <> Decimal.Pos Decimal.Nil /\ Z.to_int n <> Decimal.Neg Decimal.Nil.
Proof.
  destruct n as [ | p | p ]; simpl; split; try congruence;
    intros H; injection H as H; exact (Unsigned.to_uint_nonnil p H).
Qed.

Lemma number_of_token_to_string (n : Z) :
  JSON.number_of_token (number_to_string n) = Some n.
Proof.
  unfold JSON.number_of_token, number_to_string.
  destruct (to_int_not_nil n) as [H1 H2].
  rewrite (NilZero.isi _ H1 H2), DecimalZ.of_to.
  unfold number_to_string. rewrite String.eqb_refl. reflexivity.
Qed.

(** *** Values *)

Lemma stringify_array (v : json) (l : list json) :
  JSON.stringify (JArr (v :: l)) = "[" ++ JSON.stringify v ++ JSON.more_elems l.
Proof.
  reflexivity.
Qed.

Lemma stringify_object (k : string) (v : json) (l : list (string * json)) :
  JSON.stringify (JObj ((k, v) :: l))
  = "{" ++ JSON.quote k ++ ":" ++ JSON.stringify v ++ JSON.more_members l.
Proof.
  reflexivity.
Qed.

Lemma stringify_start (j : json) :
  exists c r, JSON.stringify j = String c r /\ value_start c = true.
Proof.
  destruct j as [ | [] | n | s | [ | v l] | [ | [k v] l] ]; simpl; eauto.
  destruct (number_to_string_nonempty n) as (c & r & -> & Hc).
  exists c, r. split; [reflexivity | ]. unfold value_start. now rewrite Hc.
Qed.

Lemma stringify_length (j : json) : (1 <= String.length (JSON.stringify j))%nat.
Proof. destruct (stringify_start j) as (c & r & -> & _). simpl. lia. Qed.

Lemma skip_ws_value_start c r :
  value_start c = true -> JSON.skip_ws (String c r) = String c r.
Proof.
  intros H. destruct c as [[] [] [] [] [] [] [] []];
    try reflexivity; vm_compute in H; discriminate H.
Qed.

Lemma value_start_not_close c :
  value_start c = true -> Ascii.eqb c "]" = false /\ Ascii.eqb c "}" = false.
Proof.
  intros H. destruct c as [[] [] [] [] [] [] [] []];
    try (split; reflexivity); vm_compute in H; discriminate H.
Qed.

Lemma parse_value_number fuel c r :
  number_start c = true ->
  JSON.parse_value (S fuel) (String c r)
  = let (tok, rest) := JSON.span_number (String c r) in
    match JSON.number_of_token tok with
    | Some n => Some (JNum n, rest)
    | None => None
    end.
Proof.
  intros H. destruct c as [[] [] [] [] [] [] [] []];
    try reflexivity; vm_compute in H; discriminate H.
Qed.

Lemma parse_value_string fuel r :
  JSON.parse_value (S fuel) (String JSON.dquote r)
  = match JSON.parse_chars r with
    | Some (str, rest) => Some (JStr str, rest)
    | None => None
    end.
Proof. reflexivity. Qed.

Lemma parse_value_array fuel r :
  JSON.parse_value (S fuel) (String "[" r)
  = match JSON.skip_ws r with
    | String c' r' =>
        if Ascii.eqb c' "]" then Some (JArr [], r')
        else match JSON.parse_elements fuel r with
             | Some (l, rest) => Some (JArr l, rest)
             | None => None
             end
    | EmptyString => None
    end.
Proof. reflexivity. Qed.

Lemma parse_value_object fuel r :
  JSON.parse_value (S fuel) (String "{" r)
  = match JSON.skip_ws r with
    | String c' r' =>
        if Ascii.eqb c' "}" then Some (JObj [], r')
        else match JSON.parse_members fuel r with
             | Some (l, rest) => Some (JObj l, rest)
             | None => None
             end
    | EmptyString => None
    end.
Proof. reflexivity. Qed.

Lemma parse_elements_S fuel s :
  JSON.parse_elements (S fuel) s
  = match JSON.parse_value fuel s with
    | Some (v, r) =>
        match JSON.skip_ws r with
        | String c r' =>
            if Ascii.eqb c "," then
              match JSON.parse_elements fuel r' with
              | Some (l, rest) => Some (v :: l, rest)
              | None => None
              end
            else if Ascii.eqb c "]" then Some ([v], r')
            else None
        | EmptyString => None
        end
    | None => None
    end.
Proof. reflexivity. Qed.

Lemma parse_members_S fuel k tail :
  JSON.parse_members (S fuel) (JSON.quote k ++ ":" ++ tail)
  = match JSON.parse_value fuel tail with
    | Some (v, r) =>
        match JSON.skip_ws r with
        | String c r' =>
            if Ascii.eqb c "," then
              match JSON.parse_members fuel r' with
              | Some (l, rest) => Some ((k, v) :: l, rest)
              | None => None
              end
            else if Ascii.eqb c "}" then Some ([(k, v)], r')
            else None
        | EmptyString => None
        end
    | None => None
    end.
Proof.
  unfold JSON.quote.
  change (JSON.parse_members (S fuel) (String JSON.dquote (JSON.quote_chars k) ++ ":" ++ tail))
    with (match JSON.parse_chars (JSON.quote_chars k ++ ":" ++ tail) with
          | Some (k, r) =>
              match JSON.skip_ws r with
              | String c r =>
                  if Ascii.eqb c ":" then
                    match JSON.parse_value fuel r with
                    | Some (v, r) =>
                        match JSON.skip_ws r with
                        | String c r' =>
                            if Ascii.eqb c "," then
                              match JSON.parse_members fuel r' with
                              | Some (l, rest) => Some ((k, v) :: l, rest)
                              | None => None
                              end
                            else if Ascii.eqb c "}" then Some ([(k, v)], r')
                            else None
                        | EmptyString => None
                        end
                    | None => None
                    end
                  else None
              | EmptyString => None
              end
          | None => None
          end).
  rewrite parse_chars_quote_chars. reflexivity.
Qed.

Lemma follows_more_elems l rest : follows (JSON.more_elems l ++ rest).
Proof. destruct l; reflexivity. Qed.

Lemma follows_more_members l rest : follows (JSON.more_members l ++ rest).
Proof. destruct l as [ | [k w] l]; reflexivity. Qed.

Ltac lengths H :=
  repeat first
    [ rewrite length_append in H
    | progress cbn [String.length JSON.more_elems JSON.more_members
                    String.append JSON.quote] in H ].

Lemma parse_elements_more (l : list json) :
  Forall parses_back l ->
  forall v fuel rest,
    parses_back v -> follows rest ->
    (2 * String.length (JSON.stringify v ++ JSON.more_elems l) <= S fuel)%nat ->
    JSON.parse_elements fuel (JSON.stringify v ++ JSON.more_elems l ++ rest)
    = Some (v :: l, rest).
Proof.
  induction 1 as [ | w l Hw Hl IH ]; intros v fuel rest Hv Hrest Hfuel;
    pose proof (stringify_length v) as Hlen; lengths Hfuel;
    (destruct fuel as [ | fuel ]; [lia | ]).
  - rewrite parse_elements_S, Hv; [reflexivity | reflexivity | lia].
  - pose proof (stringify_length w) as Hlenw.
    rewrite parse_elements_S, Hv; [ | apply follows_more_elems | lia ].
    cbn [JSON.more_elems].
    replace (("," ++ JSON.stringify w ++ JSON.more_elems l) ++ rest)
      with (String "," (JSON.stringify w ++ JSON.more_elems l ++ rest))
      by (repeat first [rewrite append_assoc | progress cbn [String.append]]; reflexivity).
    change (JSON.skip_ws (String "," ?x)) with (String "," x).
    cbv beta iota. change (Ascii.eqb "," ",") with true. cbv iota.
    rewrite IH; [reflexivity | assumption | assumption | ].
    rewrite length_append. lia.
Qed.

Lemma parse_members_more (l : list (string * json)) :
  Forall (fun kv => parses_back (snd kv)) l ->
  forall k v fuel rest,
    parses_back v -> follows rest ->
    (2 * String.length (JSON.stringify v ++ JSON.more_members l) <= S fuel)%nat ->
    JSON.parse_members fuel
      (JSON.quote k ++ ":" ++ JSON.stringify v ++ JSON.more_members l ++ rest)
    = Some ((k, v) :: l, rest).
Proof.
  induction 1 as [ | [k' w] l Hw Hl IH ]; intros k v fuel rest Hv Hrest Hfuel;
    pose proof (stringify_length v) as Hlen; lengths Hfuel;
    (destruct fuel as [ | fuel ]; [lia | ]).
  - rewrite parse_members_S, Hv; [reflexivity | reflexivity | lia].
  - pose proof (stringify_length w) as Hlenw.
    rewrite parse_members_S, Hv; [ | apply follows_more_members | lia ].
    cbn [JSON.more_members].
    replace (("," ++ JSON.quote k' ++ ":" ++ JSON.stringify w ++ JSON.more_members l) ++ rest)
      with (String "," (JSON.quote k' ++ ":" ++ JSON.stringify w ++ JSON.more_members l ++ rest))
      by (repeat first [rewrite append_assoc | progress cbn [String.append]]; reflexivity).
    change (JSON.skip_ws (String "," ?x)) with (String "," x).
    cbv beta iota. change (Ascii.eqb "," ",") with true. cbv iota.
    simpl in Hw.
    rewrite IH; [reflexivity | assumption | assumption | ].
    rewrite length_append. lia.
Qed.

Lemma stringify_parses_back (j : json) : parses_back j.
Proof.
  induction j as [ | b | n | s | l IH | l IH ] using json_ind;
    intros fuel rest Hrest Hfuel.
  - destruct fuel as [ | fuel ]; [simpl in Hfuel; lia | reflexivity].
  - destruct fuel as [ | fuel ]; [destruct b; simpl in Hfuel; lia | ].
    destruct b; reflexivity.
  - destruct (number_to_string_nonempty n) as (c & r & E & Hc).
    pose proof (number_to_string_chars n) as Hchars.
    cbn [JSON.stringify] in *.
    destruct fuel as [ | fuel ]; [rewrite E in Hfuel; simpl in Hfuel; lia | ].
    pose proof (span_number_app _ rest Hchars Hrest) as Hspan.
    rewrite E in *. cbn [String.append] in *.
    rewrite (parse_value_number _ _ _ Hc), Hspan, <- E, number_of_token_to_string.
    reflexivity.
  - destruct fuel as [ | fuel ]; [simpl in Hfuel; lia | ].
    cbn [JSON.stringify JSON.quote String.append].
    rewrite parse_value_string, parse_chars_quote_chars. reflexivity.
  - destruct l as [ | v l ].
    + destruct fuel as [ | fuel ]; [simpl in Hfuel; lia | reflexivity].
    + rewrite stringify_array in *. lengths Hfuel.
      destruct fuel as [ | fuel ]; [lia | ].
      cbn [String.append]. rewrite parse_value_array, append_assoc.
      destruct (stringify_start v) as (c & r & E & Hc).
      destruct (value_start_not_close c Hc) as [Hclose _].
      inversion IH as [ | ? ? Hv Hl ]; subst.
      rewrite (parse_elements_more l Hl v fuel rest Hv Hrest)
        by (rewrite length_append; lia).
      rewrite E. cbn [String.append].
      rewrite (skip_ws_value_start _ _ Hc), Hclose. reflexivity.
  - destruct l as [ | [k v] l ].
    + destruct fuel as [ | fuel ]; [simpl in Hfuel; lia | reflexivity].
    + rewrite stringify_object in *. lengths Hfuel.
      destruct fuel as [ | fuel ]; [lia | ].
      inversion IH as [ | ? ? Hv Hl ]; subst. simpl in Hv.
      replace (("{" ++ JSON.quote k ++ ":" ++ JSON.stringify v ++ JSON.more_members l) ++ rest)
        with (String "{" (JSON.quote k ++ ":" ++ JSON.stringify v ++ JSON.more_members l ++ rest))
        by (repeat first [rewrite append_assoc | progress cbn [String.append]]; reflexivity).
      rewrite parse_value_object.
      rewrite (parse_members_more l Hl k v fuel rest Hv Hrest)
        by (rewrite length_append; lia).
      reflexivity.
Qed.

(** [JSON.parse] inverts [JSON.stringify]. *)
Lemma JSON_parse_stringify (j : json) : JSON.parse (JSON.stringify j) = Some j.
Proof.
  unfold JSON.parse.
  rewrite <- (append_nil_r (JSON.stringify j)) at 2.
  rewrite stringify_parses_back; [reflexivity | exact I | lia].
Qed.

(** ** The cell codec: [insert]'s sanitization and [getParsedValue] *)

Lemma stringify_not_empty (j : json) : String.eqb (JSON.stringify j) EmptyString = false.
Proof. destruct (stringify_start j) as (c & r & -> & _). reflexivity. Qed.

Lemma cleaned_scalar (v : value) :
  typeof_object v = false -> Client.cleaned v = or_else v (Str EmptyString).
Proof.
  unfold Client.cleaned, Client.sanitizedValue. intros H.
  destruct v as [ | j ]; [reflexivity | ]. now rewrite H, andb_false_r.
Qed.

Lemma cleaned_composite (j : json) :
  j <> JNull -> typeof_object (Val j) = true ->
  Client.cleaned (Val j) = Str (JSON.stringify j).
Proof.
  unfold Client.cleaned, Client.sanitizedValue, or_else. intros Hnull H. rewrite H.
  destruct j; try discriminate H; try congruence;
    cbn [truthy andb]; unfold Str; cbn [truthy]; now rewrite stringify_not_empty.
Qed.

(** The store never receives an object: a cell holds a scalar. *)
Lemma cleaned_never_object (v : value) : typeof_object (Client.cleaned v) = false.
Proof.
  destruct v as [ | [ | b | n | s | l | l ] ];
    first
      [ reflexivity
      | rewrite cleaned_composite by (congruence || reflexivity); reflexivity
      | rewrite cleaned_scalar by reflexivity; unfold or_else;
        match goal with |- context [if ?b then _ else _] => destruct b end;
        reflexivity ].
Qed.

Lemma getParsedValue_stringify (j : json) :
  Client.getParsedValue (Str (JSON.stringify j)) = Val j.
Proof.
  unfold Client.getParsedValue. simpl. now rewrite JSON_parse_stringify.
Qed.


Example cleaned_object :
  Client.cleaned (Val (JObj [("a", JNum 1); ("b", JArr [JBool true; JNull])]))
  = Str ("{" ++ JSON.quote "a" ++ ":1," ++ JSON.quote "b" ++ ":[true,null]}").
Proof. reflexivity. Qed.

Example getParsedValue_plain : Client.getParsedValue (Str "alice") = Str "alice".
Proof. reflexivity. Qed.

Example round_trip_fails_false :
  Client.getParsedValue (Client.cleaned (Bool false)) = Str EmptyString.
Proof. reflexivity. Qed.

Example round_trip_fails_null :
  Client.getParsedValue (Client.cleaned Null) = Str EmptyString.
Proof. reflexivity. Qed.

Example round_trip_fails_digits :
  Client.getParsedValue (Client.cleaned (Str "123")) = Num 123.
Proof. reflexivity. Qed.

Example round_trip_fails_literal :
  Client.getParsedValue (Client.cleaned (Str "true")) = Bool true.
Proof. reflexivity. Qed.




(** ** The store, [insert] and [retrieve] *)

Lemma eqb_empty_false (s : string) : s <> EmptyString -> String.eqb s EmptyString = false.
Proof. intros H. now apply String.eqb_neq. Qed.

Lemma serve_served {A} (req : request) (effect : store -> result A * store) st :
  fault st req = None -> serve req effect st = effect (record req st).
Proof. unfold serve. cbn [fault record]. now intros ->. Qed.

Lemma serve_rejected {A} (req : request) (effect : store -> result A * store) st e :
  fault st req = Some e -> serve req effect st = (Throw e, record req st).
Proof. unfold serve. cbn [fault record]. now intros ->. Qed.

Lemma get_set_table t tb st : get_table t (set_table t tb st) = tb.
Proof. destruct t; reflexivity. Qed.

Lemma get_table_record t req st : get_table t (record req st) = get_table t st.
Proof. destruct t; reflexivity. Qed.

Lemma fault_set_table t tb st : fault (set_table t tb st) = fault st.
Proof. destruct t; reflexivity. Qed.

Lemma lookup_put_family (tb : table) (k fam : string) (f : family) :
  f <> ∅ ->
  put_family tb k fam f !! k = Some (<[fam := f]> (default ∅ (tb !! k))).
Proof.
  intros Hf. unfold put_family. cbv zeta.
  destruct (decide (f = ∅)) as [E | _]; [contradiction | ].
  rewrite decide_False by apply insert_non_empty.
  apply lookup_insert_eq.
Qed.

(** [row.get] of a row that is in the table. *)
Lemma row_get_present t k column st (r : row) :
  fault st (Get t k column) = None ->
  get_table t st !! k = Some r ->
  row_get t k column st = (Return (Some [restrict column r]), record (Get t k column) st).
Proof.
  intros Hfault Hrow. unfold row_get. rewrite serve_served by exact Hfault.
  now rewrite get_table_record, Hrow.
Qed.

(** [row.get] of a row that is not: the [Unknown row] error. *)
Lemma row_get_absent t k column st :
  fault st (Get t k column) = None ->
  get_table t st !! k = None ->
  row_get t k column st
  = (Throw (Error "RowError" ("Unknown row: " ++ k ++ ".")), record (Get t k column) st).
Proof.
  intros Hfault Hrow. unfold row_get. rewrite serve_served by exact Hfault.
  now rewrite get_table_record, Hrow.
Qed.

(** What [retrieve] does with a settled [row.get], for a named column. *)
Lemma retrieve_column_rejected t cf k col complete st e st' :
  k <> EmptyString -> col <> EmptyString ->
  row_get t k (Some (cf, col)) st = (Throw e, st') ->
  Client.retrieve (Some t) cf k (Some col) complete st
  = (if startsWith "Unknown row" (err_message e) then Return Client.RNull else Throw e, st').
Proof.
  intros Hk Hcol Hget. unfold Client.retrieve.
  rewrite (eqb_empty_false _ Hk).
  destruct col as [ | c col ]; [congruence | ].
  cbn [Client.identifier]. rewrite Hget. now destruct (startsWith _ _).
Qed.

Lemma retrieve_row_rejected t cf k complete st e st' :
  k <> EmptyString ->
  row_get t k None st = (Throw e, st') ->
  Client.retrieve (Some t) cf k None complete st
  = (if startsWith "Unknown row" (err_message e) then Return Client.RNull else Throw e, st').
Proof.
  intros Hk Hget. unfold Client.retrieve.
  rewrite (eqb_empty_false _ Hk). cbn [Client.identifier].
  rewrite Hget. now destruct (startsWith _ _).
Qed.

Lemma retrieve_column_resolved t cf k col complete st (r : row) :
  k <> EmptyString -> col <> EmptyString ->
  fault st (Get t k (Some (cf, col))) = None ->
  get_table t st !! k = Some r ->
  Client.retrieve (Some t) cf k (Some col) complete st
  = (match lookup_cells (get_table t st) k cf col ≫= head with
     | Some c => Return (if complete then Client.RCell c else Client.RValue (cell_value c))
     | None =>
         if complete then Return Client.RUndefined
         else Throw (TypeError "Cannot read property 'value' of undefined")
     end, record (Get t k (Some (cf, col))) st).
Proof.
  intros Hk Hcol Hfault Hrow. unfold Client.retrieve.
  rewrite (eqb_empty_false _ Hk).
  destruct col as [ | c col ]; [congruence | ].
  cbn [Client.identifier]. rewrite (row_get_present _ _ _ _ _ Hfault Hrow).
  unfold lookup_cells. rewrite Hrow. cbn [head restrict].
  destruct (r !! cf) as [ f | ] eqn:Ef.
  - destruct (f !! String c col) as [ cs | ] eqn:Ec.
    + rewrite lookup_singleton_eq, lookup_singleton_eq. cbn [mbind option_bind].
      destruct (head cs); destruct complete; reflexivity.
    + rewrite lookup_empty. destruct complete; reflexivity.
  - rewrite lookup_empty. destruct complete; reflexivity.
Qed.

(** Reading a cell back after [insert] wrote it: the newest version holds
    the sanitized value. *)
Lemma insert_then_retrieve st t cf k col v :
  k <> EmptyString -> col <> EmptyString ->
  fault_free st ->
  (Client.retrieve (Some t) cf k (Some col) false
     (Client.insert (Some t) cf k (Some {[ col := v ]}) st).2).1
  = Return (Client.RValue (Client.cleaned v)).
Proof.
  intros Hk Hcol Hfault. unfold Client.insert, table_insert.
  rewrite (eqb_empty_false _ Hk), serve_served by apply Hfault.
  cbn [snd]. rewrite get_table_record.
  set (tb := get_table t st).
  set (f := union_with _ _ _).
  assert (Hf : f !! col = Some (Cell (Client.cleaned v) (clock st)
                                 :: default [] (family_of tb k cf !! col))).
  { unfold f. rewrite lookup_union_with, !map_fmap_singleton, lookup_singleton_eq.
    cbn [clock record]. destruct (family_of tb k cf !! col); reflexivity. }
  assert (Hne : f <> ∅) by (intros E; rewrite E, lookup_empty in Hf; discriminate).
  erewrite retrieve_column_resolved; try assumption.
  - cbn [fst]. unfold lookup_cells.
    rewrite get_set_table, (lookup_put_family _ _ _ _ Hne), lookup_insert_eq, Hf.
    reflexivity.
  - rewrite fault_set_table. apply Hfault.
  - rewrite get_set_table. apply (lookup_put_family _ _ _ _ Hne).
Qed.

Example set_then_get :
  (Client.get (Client.Config "cf" "cf_metadata" "value") "user:1" (Some "name")
     (Lib.set (Client.Config "cf" "cf_metadata" "value") "user:1" (Str "alice") (Some 5)
        (Some "name") empty_store).2).1
  = Return (Client.RValue (Str "alice")).
Proof. vm_compute. reflexivity. Qed.

(** C10. [insert] stores the empty string for each of [0], [false], the
    empty string, [null] and [undefined]; a cell set to one of them reads
    back as the empty string. *)
Theorem insert_collapses_falsy (v : value) :
  In v [Num 0; Bool false; Str EmptyString; Null; Undefined] ->
  Client.cleaned v = Str EmptyString
  /\ forall st t cf k col,
       k <> EmptyString -> col <> EmptyString ->
       fault_free st ->
       (Client.retrieve (Some t) cf k (Some col) false
          (Client.insert (Some t) cf k (Some {[ col := v ]}) st).2).1
       = Return (Client.RValue (Str EmptyString)).
Proof.
  intros Hv.
  assert (Hc : Client.cleaned v = Str EmptyString).
  { simpl in Hv. destruct Hv as [<- | [<- | [<- | [<- | [<- | []]]]]]; reflexivity. }
  split; [exact Hc | ].
  intros st t cf k col Hk Hcol Hfault.
  rewrite insert_then_retrieve by assumption. now rewrite Hc.
Qed.

Lemma insert_collapses_falsy_witness :
  Client.cleaned (Num 0) = Str EmptyString
  /\ (Client.retrieve (Some Primary) "cf" "user:1" (Some "visits") false
        (Client.insert (Some Primary) "cf" "user:1"
           (Some {[ "visits" := Num 0 ]}) empty_store).2).1
     = Return (Client.RValue (Str EmptyString)).
Proof.
  destruct (insert_collapses_falsy (Num 0) (or_introl eq_refl)) as [H1 H2].
  split; [exact H1 | ].
  apply H2; [discriminate | discriminate | intros req; reflexivity].
Defined.



(** ** Store errors on the read paths *)

Lemma retrieve_rejected t cf k column complete st e st' :
  k <> EmptyString ->
  row_get t k (Client.identifier cf column) st = (Throw e, st') ->
  Client.retrieve (Some t) cf k column complete st
  = (if startsWith "Unknown row" (err_message e) then Return Client.RNull else Throw e, st').
Proof.
  intros Hk Hget. destruct column as [ [ | c col ] | ].
  - exact (retrieve_row_rejected t cf k complete st e st' Hk Hget).
  - now apply retrieve_column_rejected.
  - now apply retrieve_row_rejected.
Qed.

Lemma retrieve_empty_column t cf k complete :
  Client.retrieve (Some t) cf k (Some EmptyString) complete
  = Client.retrieve (Some t) cf k None complete.
Proof. reflexivity. Qed.

(** [retrieve], [get], [getRow] and [count] map a rejection of [row.get]
    whose message starts with [Unknown row] to [null] ([count] to [0]) and
    pass any other rejection on unchanged. *)
Lemma retrieve_not_found t cf k column complete st e st' :
  k <> EmptyString ->
  row_get t k (Client.identifier cf column) st = (Throw e, st') ->
  startsWith "Unknown row" (err_message e) = true ->
  Client.retrieve (Some t) cf k column complete st = (Return Client.RNull, st').
Proof. intros Hk Hget Hmsg. now rewrite (retrieve_rejected _ _ _ _ _ _ _ _ Hk Hget), Hmsg. Qed.

Lemma retrieve_other_error t cf k column complete st e st' :
  k <> EmptyString ->
  row_get t k (Client.identifier cf column) st = (Throw e, st') ->
  startsWith "Unknown row" (err_message e) = false ->
  Client.retrieve (Some t) cf k column complete st = (Throw e, st').
Proof. intros Hk Hget Hmsg. now rewrite (retrieve_rejected _ _ _ _ _ _ _ _ Hk Hget), Hmsg. Qed.

Lemma get_rejected cfg k column st e st' :
  k <> EmptyString ->
  row_get Primary k
    (Client.identifier (Client.cfName cfg)
       (Some (str_or column (str_or (Some (Client.defaultColumn cfg)) EmptyString)))) st
  = (Throw e, st') ->
  Client.get cfg k column st
  = (if startsWith "Unknown row" (err_message e) then Return Client.RNull else Throw e, st').
Proof.
  intros Hk Hget. unfold Client.get. rewrite (eqb_empty_false _ Hk).
  now apply retrieve_rejected.
Qed.

Lemma getRow_rejected cfg k st e st' :
  k <> EmptyString ->
  row_get Primary k None st = (Throw e, st') ->
  Client.getRow cfg k st
  = (if startsWith "Unknown row" (err_message e) then Return Client.RNull else Throw e, st').
Proof. intros Hk Hget. unfold Client.getRow. now apply retrieve_row_rejected. Qed.

Lemma count_rejected cfg st e st' :
  row_get Metadata Client.COUNTS (Some (Client.cfNameMetadata cfg, Client.COUNTS)) st
  = (Throw e, st') ->
  Client.count cfg st
  = (if startsWith "Unknown row" (err_message e)
     then Return (Client.RValue (Num 0)) else Throw e, st').
Proof.
  intros Hget. unfold Client.count, bind.
  assert (Hc : Client.COUNTS <> EmptyString) by (unfold Client.COUNTS; discriminate).
  rewrite (retrieve_column_rejected _ _ _ _ _ _ _ _ Hc Hc Hget).
  now destruct (startsWith _ _).
Qed.

(** Without faults, a row that is not in the table reads as [null]. *)
Lemma retrieve_absent t cf k column complete st :
  k <> EmptyString ->
  fault_free st ->
  get_table t st !! k = None ->
  Client.retrieve (Some t) cf k column complete st
  = (Return Client.RNull, record (Get t k (Client.identifier cf column)) st).
Proof.
  intros Hk Hfault Hrow.
  now rewrite (retrieve_not_found _ _ _ _ _ _ _ _ Hk
                 (row_get_absent _ _ _ _ (Hfault _) Hrow)).
Qed.

(** Without faults, [retrieve] leaves the tables alone and throws nothing
    but a [TypeError]. *)
Lemma retrieve_no_fault tb cf k column complete st r st' :
  fault_free st ->
  Client.retrieve tb cf k column complete st = (r, st') ->
  primary st' = primary st /\ metadata st' = metadata st
  /\ (forall req, fault st' req = None)
  /\ (forall e, r = Throw e -> err_name e = "TypeError").
Proof.
  intros Hfault. unfold Client.retrieve.
  destruct tb as [ t | ]; [ | intros [= <- <-]; repeat split; [exact Hfault | discriminate] ].
  destruct (String.eqb k EmptyString);
    [ intros [= <- <-]; repeat split; [exact Hfault | discriminate] | ].
  match goal with |- context [row_get t k ?i st] => set (id := i) end.
  unfold row_get. rewrite serve_served by apply Hfault.
  rewrite get_table_record.
  destruct (get_table t st !! k) as [ row | ].
  - destruct column as [ [ | c col ] | ]; cbn [head];
      repeat match goal with
             | |- context [match ?x with _ => _ end] =>
                 lazymatch x with
                 | context [match _ with _ => _ end] => fail
                 | _ => destruct x
                 end
             end;
      intros [= <- <-]; repeat split; try exact Hfault; try discriminate;
      intros e [= <-]; reflexivity.
  - cbn [err_message startsWith String.prefix negb].
    intros [= <- <-]. repeat split; [exact Hfault | discriminate].
Qed.

(** C7 fails on [ttl]: when the store reports the row unknown, [retrieve]
    resolves to [null] and [ttl] then reads [timestamp] of it. For every
    row that is not in the primary table, [ttl] throws a [TypeError]. *)
Theorem ttl_unknown_row_throws (cfg : Client.config) (now : Z) k column st :
  k <> EmptyString ->
  fault_free st ->
  primary st !! k = None ->
  exists e, (Lib.ttl cfg now k column st).1 = Throw e /\ err_name e = "TypeError".
Proof.
  intros Hk Hfault Hrow. unfold Lib.ttl, bind.
  destruct (Client.retrieve (Some Metadata) _ _ _ _ st) as [ r st1 ] eqn:E1.
  destruct (retrieve_no_fault _ _ _ _ _ _ _ _ Hfault E1) as (Hp & _ & Hfault1 & Hthrow).
  destruct r as [ ttl | e ].
  - rewrite retrieve_absent; [ | exact Hk | exact Hfault1 | cbn [get_table]; now rewrite Hp ].
    eexists. split; reflexivity.
  - exists e. split; [reflexivity | now apply Hthrow].
Qed.

Lemma ttl_unknown_row_throws_witness :
  exists e,
    (Lib.ttl (Client.Config "cf" "cf_metadata" "value") 1550000000000 "ghost" None
       empty_store).1 = Throw e
    /\ err_name e = "TypeError".
Proof.
  apply ttl_unknown_row_throws; [discriminate | intros req; reflexivity | reflexivity].
Defined.

Example ttl_unknown_row :
  (Lib.ttl (Client.Config "cf" "cf_metadata" "value") 1550000000000 "ghost" None
     empty_store).1
  = Throw (TypeError "Cannot read property 'timestamp' of null").
Proof. vm_compute. reflexivity. Qed.

Example get_unknown_row :
  (Client.get (Client.Config "cf" "cf_metadata" "value") "ghost" None empty_store).1
  = Return Client.RNull.
Proof. vm_compute. reflexivity. Qed.

Example count_unknown_row :
  (Client.count (Client.Config "cf" "cf_metadata" "value") empty_store).1
  = Return (Client.RValue (Num 0)).
Proof. vm_compute. reflexivity. Qed.

(** ** The sweep filter and the decomposition of marker keys *)

Lemma Qltb_lt (a b : Q) : Lib.Qltb a b = true <-> (a < b)%Q.
Proof.
  unfold Lib.Qltb. rewrite negb_true_iff, <- not_true_iff_false, Qle_bool_iff.
  split; [apply Qnot_le_lt | apply Qlt_not_le].
Qed.

(** The filter of the code, read as the strict comparison of the expiry
    time with [now]. *)
Lemma expired_strictly (now : Z) (m : Lib.metaCell) :
  Lib.expired now m = true <-> strictly_expired now m.
Proof.
  unfold Lib.expired, strictly_expired.
  destruct (Lib.to_number (Lib.value m)) as [ v | ].
  - rewrite Qltb_lt. unfold Zminus. rewrite inject_Z_plus, inject_Z_opp.
    split.
    + intros H. exists v. split; [reflexivity | lra].
    + intros (v' & [= <-] & H). lra.
  - split; [discriminate | intros (v & [=] & _)].
Qed.

(** For a marker written at a whole millisecond the comparison is one of
    integers. *)
Lemma expired_milliseconds (now ms ttl : Z) (k : string) :
  Lib.expired now (Lib.MetaCell k (Num ttl) (ms * 1000)) = true
  <-> ms + ttl * 1000 < now.
Proof.
  rewrite expired_strictly. unfold strictly_expired. cbn [Lib.value Lib.timestamp Lib.to_number Num].
  assert (E : (inject_Z (ms * 1000) / inject_Z 1000 == inject_Z ms)%Q).
  { rewrite inject_Z_mult. field. }
  split.
  - intros (v & [= <-] & H). rewrite E, <- inject_Z_plus, <- Zlt_Qlt in H. exact H.
  - intros H. exists ttl. split; [reflexivity | ].
    rewrite E, <- inject_Z_plus, <- Zlt_Qlt. exact H.
Qed.

(** C1, as stated, fails: a marker written at millisecond [1000] with a TTL
    of [1] second satisfies [1000 + 1 * 1000 <= 2000], and at time [2000]
    the sweep does not take it for expired. *)
Lemma sweep_filter_counterexample :
  1000 + 1 * 1000 <= 2000
  /\ Lib.expired 2000 (Lib.MetaCell "user:1#cf:name" (Num 1) (1000 * 1000)) = false
  /\ Lib.filteredRowKeys 2000 [Some (Lib.MetaCell "user:1#cf:name" (Num 1) (1000 * 1000))] = [].
Proof. split; [lia | split; reflexivity]. Qed.

(** C1, amended. The filtering step keeps the key of a scanned marker
    exactly when the marker's write timestamp in milliseconds plus its TTL
    in seconds times 1000 is strictly less than the current time; every
    other marker is dropped from this cycle. *)
Theorem sweep_filter_spec (now : Z) (results : list (option Lib.metaCell)) (k : string) :
  k ∈ Lib.filteredRowKeys now results
  <-> exists m, Some m ∈ results /\ Lib.rowKey m = k /\ strictly_expired now m.
Proof.
  unfold Lib.filteredRowKeys. rewrite list_elem_of_fmap. split.
  - intros (m & -> & Hm). apply list_elem_of_filter in Hm as [Hexp Hm].
    apply list_elem_of_omap in Hm as (o & Ho & E). simpl in E. subst o.
    exists m. split; [exact Ho | split; [reflexivity | now apply expired_strictly]].
  - intros (m & Hm & <- & Hexp). exists m. split; [reflexivity | ].
    apply list_elem_of_filter. split; [now apply expired_strictly | ].
    apply list_elem_of_omap. exists (Some m). split; [exact Hm | reflexivity].
Qed.

Example sweep_filter_expired :
  Lib.filteredRowKeys 2001 [None; Some (Lib.MetaCell "user:1#cf:name" (Num 1) (1000 * 1000))]
  = ["user:1#cf:name"].
Proof. reflexivity. Qed.

(** *** Marker keys *)

Lemma occurs_app c a b : occurs c (a ++ b) = occurs c a || occurs c b.
Proof.
  induction a as [ | x a IH ]; cbn [occurs String.append]; [reflexivity | ].
  now rewrite IH, orb_assoc.
Qed.

Lemma split_without sep s : occurs sep s = false -> split sep s = [s].
Proof.
  induction s as [ | x s IH ]; cbn [occurs split]; [reflexivity | ].
  intros H. apply orb_false_elim in H as [Hx Hs].
  now rewrite Hx, (IH Hs).
Qed.

Lemma split_at sep a b :
  occurs sep a = false -> split sep (a ++ String sep b) = a :: split sep b.
Proof.
  induction a as [ | x a IH ]; cbn [occurs split String.append].
  - intros _. now rewrite Ascii.eqb_refl.
  - intros H. apply orb_false_elim in H as [Hx Ha].
    now rewrite Hx, (IH Ha).
Qed.

(** C8. The sweep's decomposition of the marker key written for a row key
    and a column name gives back that row key and that column name, when
    the row key holds neither [#] nor [:] and the column name holds no [:]
    (the family name, an identifier of the store, holds no [:] either). *)
Theorem owner_ttlRowKey (cfg : Client.config) (rowKey columnName : string) :
  occurs ":" (Client.cfName cfg) = false ->
  occurs "#" rowKey = false ->
  occurs ":" rowKey = false ->
  occurs ":" columnName = false ->
  Lib.owner (Lib.ttlRowKey cfg rowKey columnName) = (rowKey, Some columnName).
Proof.
  intros Hcf Hrow1 Hrow2 Hcol. unfold Lib.owner, Lib.ttlRowKey. f_equal.
  - change (rowKey ++ "#" ++ Client.cfName cfg ++ ":" ++ columnName)
      with (rowKey ++ String "#" (Client.cfName cfg ++ ":" ++ columnName)).
    now rewrite (split_at _ _ _ Hrow1).
  - replace (rowKey ++ "#" ++ Client.cfName cfg ++ ":" ++ columnName)
      with ((rowKey ++ "#" ++ Client.cfName cfg) ++ String ":" columnName)
      by (repeat first [rewrite append_assoc | progress cbn [String.append]]; reflexivity).
    rewrite split_at, (split_without _ _ Hcol); [reflexivity | ].
    rewrite !occurs_app, Hrow2, Hcf. reflexivity.
Qed.

(** A row key with a colon, as in [user:1], is not given back. *)
Example owner_of_key_with_colon :
  Lib.owner (Lib.ttlRowKey example_config "user:1" "name") = ("user:1", Some "1#cf").
Proof. reflexivity. Qed.

Lemma owner_ttlRowKey_witness :
  Lib.owner (Lib.ttlRowKey example_config "user-1" "name") = ("user-1", Some "name").
Proof.
  apply owner_ttlRowKey; reflexivity.
Defined.

(** ** The sweep timer *)

Lemma clearTimeout_not_armed h s : h ∉ Lib.armed (Lib.clearTimeout h s).
Proof.
  unfold Lib.clearTimeout. cbn [Lib.armed].
  rewrite list_elem_of_filter. tauto.
Qed.

(** [close] cancels the timeout that [this.tov] names. *)
Lemma close_cancels_tov s h : Lib.tov s = Some h -> h ∉ Lib.armed (Lib.close s).
Proof. unfold Lib.close. intros ->. apply clearTimeout_not_armed. Qed.

Lemma filter_ne_idem (h : nat) (l : list nat) :
  filter (fun h' => h' <> h) (filter (fun h' => h' <> h) l) = filter (fun h' => h' <> h) l.
Proof.
  induction l as [ | x l IH ]; [reflexivity | ].
  rewrite (filter_cons _ x l). destruct (decide (x <> h)) as [Hx | Hx].
  - rewrite filter_cons, decide_True by exact Hx. now rewrite IH.
  - exact IH.
Qed.

(** Closing twice is closing once. *)
Lemma close_idempotent s : Lib.close (Lib.close s) = Lib.close s.
Proof.
  unfold Lib.close. destruct (Lib.tov s) as [ h | ] eqn:E.
  - unfold Lib.clearTimeout. cbn [Lib.tov Lib.armed Lib.fresh Lib.running Lib.started].
    rewrite E. now rewrite filter_ne_idem.
  - now rewrite E.
Qed.

Lemma scheduler_inv_initialised : scheduler_inv Lib.initialised.
Proof. left. split; [reflexivity | right; exists 0%nat; split; reflexivity]. Qed.

Lemma scheduler_inv_step e s s' :
  scheduler_inv s -> Lib.step e s = Some s' -> scheduler_inv s'.
Proof.
  intros Hinv. destruct e as [ h | | ]; cbn [Lib.step].
  - destruct (bool_decide (h ∈ Lib.armed s)) eqn:Eh; [ | discriminate ].
    intros [= <-]. apply bool_decide_eq_true in Eh.
    destruct Hinv as [ (Hrun & [Ha | (h' & Ha & Ht)]) | (Hrun & Ha) ];
      try (rewrite Ha in Eh; now apply elem_of_nil in Eh).
    rewrite Ha in Eh. apply list_elem_of_singleton in Eh as ->.
    right. cbn. rewrite Hrun, Ha. split; [reflexivity | ].
    rewrite filter_cons, decide_False by tauto. reflexivity.
  - destruct (Lib.running s) as [ | n ] eqn:Er; [discriminate | ].
    intros [= <-].
    destruct Hinv as [ (Hrun & _) | (Hrun & Ha) ]; [congruence | ].
    left. cbn. rewrite Ha. split; [congruence | ].
    right. exists (Lib.fresh s). split; reflexivity.
  - intros [= <-]. unfold Lib.close.
    destruct Hinv as [ (Hrun & [Ha | (h' & Ha & Ht)]) | (Hrun & Ha) ].
    + left. destruct (Lib.tov s); cbn; rewrite ?Ha; auto.
    + left. rewrite Ht. cbn. rewrite Ha, Hrun. split; [reflexivity | left].
      rewrite filter_cons, decide_False by tauto. reflexivity.
    + right. destruct (Lib.tov s); cbn; rewrite ?Ha; auto.
Qed.

Lemma scheduler_inv_run es s s' :
  scheduler_inv s -> Lib.run es s = Some s' -> scheduler_inv s'.
Proof.
  revert s. induction es as [ | e es IH ]; intros s Hinv; cbn [Lib.run].
  - now intros [= <-].
  - destruct (Lib.step e s) as [ s1 | ] eqn:E; [ | discriminate ].
    apply IH. exact (scheduler_inv_step _ _ _ Hinv E).
Qed.

(** Closed while no sweep runs, the job is over: whatever happens next,
    no sweep starts. *)
Lemma close_idle_is_final es s s' :
  scheduler_inv s -> Lib.running s = 0%nat ->
  Lib.run es (Lib.close s) = Some s' -> Lib.started s' = Lib.started s.
Proof.
  intros Hinv Hrun.
  assert (Hdead : Lib.running (Lib.close s) = 0%nat /\ Lib.armed (Lib.close s) = []
                  /\ Lib.started (Lib.close s) = Lib.started s).
  { unfold Lib.close.
    destruct Hinv as [ (_ & [Ha | (h' & Ha & Ht)]) | (Hrun' & _) ]; [ | | congruence ].
    - destruct (Lib.tov s); cbn; rewrite ?Ha; auto.
    - rewrite Ht. cbn. rewrite Ha, filter_cons, decide_False by tauto. auto. }
  destruct Hdead as (Hr & Ha & <-). revert Hr Ha.
  generalize (Lib.close s) as c. clear.
  induction es as [ | e es IH ]; intros c Hr Ha; cbn [Lib.run].
  - now intros [= <-].
  - destruct e as [ h | | ]; cbn [Lib.step].
    + rewrite Ha. rewrite bool_decide_eq_false_2 by apply not_elem_of_nil. discriminate.
    + rewrite Hr. discriminate.
    + intros H. apply IH in H.
      * rewrite H. unfold Lib.close, Lib.clearTimeout. now destruct (Lib.tov c).
      * unfold Lib.close, Lib.clearTimeout. now destruct (Lib.tov c).
      * unfold Lib.close, Lib.clearTimeout. destruct (Lib.tov c); cbn; now rewrite ?Ha.
Qed.

(** C3 fails on a sweep in flight. [close] clears the timeout that has
    already fired, which changes nothing; when the running sweep settles,
    its [then] and [catch] both call [runJob], which arms a new timeout,
    and that timeout starts the next sweep. *)
Theorem close_mid_flight_reschedules (s : Lib.scheduler) (n : nat) :
  Lib.running s = S n ->
  exists s1 s2,
    Lib.run [Lib.Close; Lib.Settle] s = Some s1
    /\ Lib.fresh s ∈ Lib.armed s1
    /\ Lib.step (Lib.Fire (Lib.fresh s)) s1 = Some s2
    /\ Lib.started s2 = S (Lib.started s).
Proof.
  intros Hrun.
  assert (Hc : Lib.running (Lib.close s) = S n
               /\ Lib.fresh (Lib.close s) = Lib.fresh s
               /\ Lib.started (Lib.close s) = Lib.started s).
  { unfold Lib.close, Lib.clearTimeout. destruct (Lib.tov s); cbn; auto. }
  destruct Hc as (Hr & Hf & Hs).
  cbn [Lib.run Lib.step]. rewrite Hr.
  eexists. eexists. split; [reflexivity | ].
  unfold Lib.runJob. cbn [Lib.armed Lib.fresh Lib.tov Lib.running Lib.started].
  rewrite Hf, Hs.
  assert (Harmed' : Lib.fresh s ∈ (Lib.armed (Lib.close s) ++ [Lib.fresh s])%list)
    by (apply elem_of_app; right; apply list_elem_of_singleton; reflexivity).
  split; [exact Harmed' | ].
  rewrite bool_decide_eq_true_2 by exact Harmed'.
  split; reflexivity.
Qed.

(** The failing run: [init], the first timeout fires, [close] is called
    while the sweep runs, the sweep settles, and the timeout it armed
    fires: a second sweep has started after [close]. *)
Lemma close_mid_flight_reschedules_witness :
  exists s1 s2,
    Lib.run [Lib.Close; Lib.Settle] (Lib.Scheduler (Some 0%nat) [] 1 1 1) = Some s1
    /\ 1%nat ∈ Lib.armed s1
    /\ Lib.step (Lib.Fire 1) s1 = Some s2
    /\ Lib.started s2 = 2%nat.
Proof.
  exact (close_mid_flight_reschedules (Lib.Scheduler (Some 0%nat) [] 1 1 1) 0 eq_refl).
Defined.

Example close_mid_flight_run :
  Lib.run [Lib.Fire 0; Lib.Close; Lib.Settle; Lib.Fire 1] Lib.initialised
  = Some (Lib.Scheduler (Some 1%nat) [] 2 1 2).
Proof. reflexivity. Qed.

Example close_idle_run :
  Lib.run [Lib.Close; Lib.Fire 0] Lib.initialised = None.
Proof. reflexivity. Qed.

(** ** The live-row counter *)

Section Counter.

Variable cfg : Client.config.

#[local] Abbreviation cf := (Client.cfName cfg).
#[local] Abbreviation cfM := (Client.cfNameMetadata cfg).

Lemma row_exists_served t k st :
  fault st (Exists t k) = None ->
  row_exists t k st
  = (Return (bool_decide (is_Some (get_table t st !! k))), record (Exists t k) st).
Proof.
  intros H. unfold row_exists. rewrite serve_served by exact H.
  now rewrite get_table_record.
Qed.

Lemma lookup_put_family_ne (tb : table) (k k' fam : string) (f : family) :
  k <> k' -> put_family tb k fam f !! k' = tb !! k'.
Proof.
  intros Hne. unfold put_family. cbv zeta.
  destruct (decide (_ = ∅)); [now rewrite lookup_delete_ne | now rewrite lookup_insert_ne].
Qed.

Lemma lookup_cells_put_family (tb : table) (k fam col : string) (f : family) cs :
  f !! col = Some cs -> lookup_cells (put_family tb k fam f) k fam col = Some cs.
Proof.
  intros Hf. unfold lookup_cells.
  assert (Hne : f <> ∅) by (intros E; rewrite E, lookup_empty in Hf; discriminate).
  now rewrite (lookup_put_family _ _ _ _ Hne), lookup_insert_eq.
Qed.

(** An increment of the counter cell, served. *)
Lemma increment_counts_served delta st n :
  fault st (increment_request cfg delta) = None ->
  counter cfg st = Some n ->
  let r := row_increment Metadata Client.COUNTS cfM Client.COUNTS delta st in
  r.1 = Return tt
  /\ counter cfg r.2 = Some (n + delta)
  /\ primary r.2 = primary st
  /\ log r.2 = (log st ++ [increment_request cfg delta])%list
  /\ fault r.2 = fault st.
Proof.
  intros Hfault Hn. cbv zeta. unfold row_increment.
  rewrite serve_served by exact Hfault.
  cbn [get_table record metadata clock]. unfold counter in *.
  set (tb := metadata st) in *.
  assert (Hfam : family_of tb Client.COUNTS cfM !! Client.COUNTS
                 = lookup_cells tb Client.COUNTS cfM Client.COUNTS).
  { unfold family_of, lookup_cells. destruct (tb !! Client.COUNTS) as [ r | ]; cbn.
    - destruct (r !! cfM); cbn; [reflexivity | apply lookup_empty].
    - rewrite lookup_empty. cbn. apply lookup_empty. }
  rewrite Hfam.
  assert (Hwrite : forall m old,
    let st' := set_table Metadata
                 (put_family tb Client.COUNTS cfM
                    (<[Client.COUNTS := Cell (Num m) (clock st) :: old]>
                       (family_of tb Client.COUNTS cfM)))
                 (record (increment_request cfg delta) st) in
    match metadata st' !! Client.COUNTS with
    | None => Some 0
    | Some _ =>
        match lookup_cells (metadata st') Client.COUNTS cfM Client.COUNTS with
        | Some (Cell (Val (JNum n')) _ :: _) => Some n'
        | _ => None
        end
    end = Some m
    /\ primary st' = primary st
    /\ log st' = (log st ++ [increment_request cfg delta])%list
    /\ fault st' = fault st).
  { intros m old. cbn [set_table record metadata primary log fault].
    rewrite (lookup_cells_put_family _ _ _ _ _ _ (lookup_insert_eq _ _ _)).
    rewrite lookup_put_family by apply insert_non_empty.
    repeat split; reflexivity. }
  destruct (tb !! Client.COUNTS) as [ r | ] eqn:Er; cbv beta iota in Hn.
  - destruct (lookup_cells tb Client.COUNTS cfM Client.COUNTS)
      as [ [ | [ [ | [ | b | m | s | l | l ] ] ts ] old ] | ];
      cbv beta iota in Hn; try discriminate.
    injection Hn as ->. cbn [fst snd].
    split; [reflexivity | apply Hwrite].
  - injection Hn as <-.
    assert (lookup_cells tb Client.COUNTS cfM Client.COUNTS = None) as ->
      by (unfold lookup_cells; now rewrite Er).
    cbn [fst snd]. split; [reflexivity | apply Hwrite].
Qed.


Lemma count_reads_counter st n :
  fault_free st -> counter cfg st = Some n ->
  (Client.count cfg st).1 = Return (Client.RValue (Num n)).
Proof.
  intros Hfault Hn. unfold Client.count, bind, counter in *.
  assert (Hc : Client.COUNTS <> EmptyString) by (unfold Client.COUNTS; discriminate).
  destruct (metadata st !! Client.COUNTS) as [ r | ] eqn:Er; cbv beta iota in Hn.
  - rewrite (retrieve_column_resolved Metadata _ _ _ _ _ r Hc Hc (Hfault _) Er).
    cbn [get_table].
    destruct (lookup_cells (metadata st) Client.COUNTS cfM Client.COUNTS)
      as [ [ | [ [ | [ | b | m | s | l | l ] ] ts ] old ] | ];
      cbv beta iota in Hn; try discriminate.
    injection Hn as ->. cbn. destruct (Z.eqb_spec n 0) as [-> | _]; reflexivity.
  - injection Hn as <-.
    rewrite (retrieve_absent Metadata _ _ _ _ _ Hc Hfault Er). reflexivity.
Qed.

Lemma fault_free_record req st : fault_free st -> fault_free (record req st).
Proof. intros H r. apply H. Qed.

Lemma fault_free_set_table t tb st : fault_free st -> fault_free (set_table t tb st).
Proof. intros H r. rewrite fault_set_table. apply H. Qed.

(** [insert] into the primary table. *)
Lemma insert_primary_writes k (data : gmap string value) :
  k <> EmptyString ->
  writes_primary (Client.insert (Some Primary) cf k (Some data))
    [Insert Primary k cf (Client.cleaned <$> data)].
Proof.
  intros Hk st Hfault. unfold Client.insert, table_insert.
  rewrite (eqb_empty_false _ Hk), serve_served by apply Hfault.
  cbn [snd set_table record metadata log fault]. repeat split.
  intros r. apply Hfault.
Qed.

Lemma insert_primary_creates k (data : gmap string value) st :
  k <> EmptyString -> data <> ∅ -> fault_free st ->
  is_Some (primary (Client.insert (Some Primary) cf k (Some data) st).2 !! k).
Proof.
  intros Hk Hdata Hfault. unfold Client.insert, table_insert.
  rewrite (eqb_empty_false _ Hk), serve_served by apply Hfault.
  cbn [snd set_table record primary get_table clock].
  apply map_choose in Hdata as (col & v & Hcol).
  rewrite lookup_put_family; [eauto | ].
  intros E. apply (f_equal (fun m => m !! col)) in E.
  rewrite lookup_union_with, !lookup_fmap, Hcol, lookup_empty in E. cbn in E.
  destruct (family_of (primary st) k cf !! col); discriminate.
Qed.

(** [row.increment] on the primary table. *)
Lemma increment_primary_writes k col delta :
  writes_primary (row_increment Primary k cf col delta) [Increment Primary k cf col delta].
Proof.
  intros st Hfault. unfold row_increment.
  rewrite serve_served by apply Hfault.
  cbn [get_table record primary clock].
  destruct (family_of (primary st) k cf !! col)
    as [ [ | [ [ | [ | b | m | s | l | l ] ] ts ] old ] | ]; cbn [snd];
    (repeat split; [intros r; apply Hfault]).
Qed.

Lemma increment_primary_creates k col delta st :
  fault_free st -> primary st !! k = None ->
  is_Some (primary (row_increment Primary k cf col delta st).2 !! k).
Proof.
  intros Hfault Hrow. unfold row_increment.
  rewrite serve_served by apply Hfault.
  cbn [get_table record primary clock].
  assert (family_of (primary st) k cf !! col = None) as ->.
  { unfold family_of. rewrite Hrow. cbn. rewrite lookup_empty. cbn. apply lookup_empty. }
  cbn [snd set_table primary].
  rewrite lookup_put_family by apply insert_non_empty. eauto.
Qed.

(** [insert] of a marker row: any metadata row but [counts]. *)
Lemma insert_marker_quiet k (data : gmap string value) st :
  k <> Client.COUNTS -> fault_free st ->
  let r := Client.insert (Some Metadata) cfM k (Some data) st in
  r.1 = Return tt
  /\ counter cfg r.2 = counter cfg st
  /\ primary r.2 = primary st
  /\ fault_free r.2
  /\ exists reqs, log r.2 = (log st ++ reqs)%list
                  /\ Forall (fun r => request_table r = Metadata) reqs.
Proof.
  intros Hk Hfault. cbv zeta. unfold Client.insert.
  destruct (String.eqb k EmptyString).
  - cbn. repeat split; [exact Hfault | ].
    exists []. split; [now rewrite app_nil_r | constructor].
  - unfold table_insert. rewrite serve_served by apply Hfault.
    cbn [fst snd set_table record primary metadata log fault get_table].
    repeat split.
    + unfold counter, lookup_cells. cbn [metadata].
      now rewrite !lookup_put_family_ne by exact Hk.
    + intros r. apply Hfault.
    + eexists. split; [reflexivity | repeat constructor].
Qed.


(** *** Sequencing *)

Lemma bind_dispatch {A B} (m : M A) (k : promise A -> M B) st :
  bind (dispatch m) k st = k (m st).1 (m st).2.
Proof. unfold bind, dispatch. now destruct (m st). Qed.

Lemma bind_returned {A B} (m : M A) (k : A -> M B) st a :
  (m st).1 = Return a -> bind m k st = k a (m st).2.
Proof. unfold bind. destruct (m st) as [ r st' ]. cbn. now intros ->. Qed.

Lemma counter_metadata st st' : metadata st' = metadata st -> counter cfg st' = counter cfg st.
Proof. unfold counter. now intros ->. Qed.

(** The counter step of a row-creating call, after the existence check
    answered [rowExists]. *)
Lemma counter_step (inc : M unit) (rowExists : bool) st n :
  inc = row_increment Metadata Client.COUNTS cfM Client.COUNTS 1 ->
  fault_free st -> counter cfg st = Some n ->
  let m := if negb rowExists then p <- dispatch inc ;; ret [p] else ret [] in
  (exists ps, (m st).1 = Return ps)
  /\ counter cfg (m st).2 = Some (if rowExists then n else n + 1)
  /\ primary (m st).2 = primary st
  /\ fault_free (m st).2
  /\ log (m st).2 = (log st ++ if rowExists then [] else [increment_request cfg 1])%list.
Proof.
  intros -> Hfault Hn. cbv zeta. destruct rowExists; cbn [negb].
  - cbn. repeat split; eauto. now rewrite app_nil_r.
  - rewrite bind_dispatch.
    destruct (increment_counts_served 1 st n (Hfault _) Hn) as (_ & Hc & Hp & Hl & Hf).
    cbn [ret fst snd]. repeat split; eauto.
    intros r. rewrite Hf. apply Hfault.
Qed.

(** The sharded revision checks, counts, then writes. *)
Lemma check_then_write_spec markers k w reqs st n :
  writes_markers cfg markers -> writes_primary w reqs ->
  fault_free st -> counter cfg st = Some n ->
  let st' := (check_then_write cfg markers k w st).2 in
  let rowExists := bool_decide (is_Some (primary st !! k)) in
  (exists ms,
     log st' = (log st ++ ms ++ [Exists Primary k]
                ++ (if rowExists then [] else [increment_request cfg 1]) ++ reqs)%list
     /\ Forall (fun r => request_table r = Metadata) ms)
  /\ counter cfg st' = Some (if rowExists then n else n + 1)
  /\ (Client.count cfg st').1
     = Return (Client.RValue (Num (if rowExists then n else n + 1))).
Proof.
  intros Hm Hw Hfault Hn. cbv zeta. unfold check_then_write.
  destruct (Hm st Hfault) as ((ps1 & Hps1) & Hc1 & Hp1 & Hf1 & ms & Hl1 & Hms).
  rewrite (bind_returned _ _ _ _ Hps1).
  set (st1 := (markers st).2) in *.
  rewrite (bind_returned _ _ _ _
             (f_equal fst (row_exists_served Primary k st1 (Hf1 _)))).
  rewrite (row_exists_served Primary k st1 (Hf1 _)). cbn [snd get_table].
  rewrite Hp1.
  set (rowExists := bool_decide (is_Some (primary st !! k))).
  set (st2 := record (Exists Primary k) st1).
  assert (Hf2 : fault_free st2) by now apply fault_free_record.
  assert (Hc2 : counter cfg st2 = Some n) by (rewrite <- Hn, <- Hc1; reflexivity).
  destruct (counter_step (Sharded.increment_counts cfg 1) rowExists st2 n
              eq_refl Hf2 Hc2) as ((ps2 & Hps2) & Hc3 & Hp3 & Hf3 & Hl3).
  rewrite (bind_returned _ _ _ _ Hps2).
  match goal with |- context [(?m st2).2] => set (st3 := (m st2).2) in * end.
  rewrite bind_dispatch.
  destruct (Hw st3 Hf3) as (Hmeta & Hf4 & Hl4).
  cbn [await snd].
  set (st4 := (w st3).2) in *.
  assert (Hc4 : counter cfg st4 = Some (if rowExists then n else n + 1))
    by (rewrite <- Hc3; now apply counter_metadata).
  split; [ | split; [exact Hc4 | now apply count_reads_counter] ].
  exists ms. split; [ | exact Hms ].
  rewrite Hl4, Hl3. unfold st2. cbn [log record]. rewrite Hl1.
  now rewrite <- !app_assoc.
Qed.

(** The revision of [src/lib] writes first: a write that creates the row
    makes the check that follows see it, and the counter stays. *)
Lemma write_then_check_spec k w reqs markers st n :
  writes_primary w reqs -> writes_markers cfg markers ->
  fault_free st -> counter cfg st = Some n ->
  is_Some (primary (w st).2 !! k) ->
  let st' := (write_then_check cfg k w markers st).2 in
  (exists ms,
     log st' = (log st ++ reqs ++ [Exists Primary k] ++ ms)%list
     /\ Forall (fun r => request_table r = Metadata) ms)
  /\ counter cfg st' = Some n
  /\ (Client.count cfg st').1 = Return (Client.RValue (Num n)).
Proof.
  intros Hw Hm Hfault Hn Hcreated. cbv zeta. unfold write_then_check.
  rewrite bind_dispatch.
  destruct (Hw st Hfault) as (Hmeta & Hf1 & Hl1).
  set (st1 := (w st).2) in *.
  rewrite (bind_returned _ _ _ _
             (f_equal fst (row_exists_served Primary k st1 (Hf1 _)))).
  rewrite (row_exists_served Primary k st1 (Hf1 _)). cbn [snd get_table].
  pose proof (bool_decide_eq_true_2 _ Hcreated) as Hb.
  set (rowExists := bool_decide (is_Some (primary st1 !! k))) in *.
  set (st2 := record (Exists Primary k) st1).
  assert (Hf2 : fault_free st2) by now apply fault_free_record.
  assert (Hc2 : counter cfg st2 = Some n)
    by (rewrite <- Hn; apply counter_metadata; exact Hmeta).
  destruct (counter_step (Lib.increment_counts cfg 1) rowExists st2 n
              eq_refl Hf2 Hc2) as ((ps2 & Hps2) & Hc3 & Hp3 & Hf3 & Hl3).
  rewrite (bind_returned _ _ _ _ Hps2).
  match goal with |- context [(?m st2).2] => set (st3 := (m st2).2) in * end.
  destruct (Hm st3 Hf3) as ((ps3 & Hps3) & Hc4 & Hp4 & Hf4 & ms & Hl4 & Hms).
  rewrite (bind_returned _ _ _ _ Hps3).
  cbn [await snd].
  set (st4 := (markers st3).2) in *.
  rewrite Hb in Hc3, Hl3.
  assert (Hc5 : counter cfg st4 = Some n) by (rewrite Hc4; exact Hc3).
  split; [ | split; [exact Hc5 | now apply count_reads_counter] ].
  exists ms. split; [ | exact Hms ].
  rewrite Hl4, Hl3, app_nil_r. unfold st2. cbn [log record]. rewrite Hl1.
  now rewrite <- !app_assoc.
Qed.


(** *** The marker writes *)

Lemma getTTLRowKey_not_counts c now t : Sharded.getTTLRowKey c now t <> Client.COUNTS.
Proof. unfold Sharded.getTTLRowKey, Client.COUNTS. cbn [String.append]. discriminate. Qed.

Lemma ttlRowKey_not_counts k col : Lib.ttlRowKey cfg k col <> Client.COUNTS.
Proof.
  intros E. apply (f_equal (occurs "#")) in E. unfold Lib.ttlRowKey in E.
  rewrite occurs_app in E. cbn in E. rewrite orb_true_r in E. discriminate E.
Qed.

Lemma no_markers : writes_markers cfg (ret []).
Proof.
  intros st Hfault. cbn. repeat split; eauto.
  exists []. split; [now rewrite app_nil_r | constructor].
Qed.

Lemma one_marker k data :
  k <> Client.COUNTS ->
  writes_markers cfg
    (p <- dispatch (Client.insert (Some Metadata) cfM k (Some data)) ;; ret [p]).
Proof.
  intros Hk st Hfault. rewrite bind_dispatch.
  destruct (insert_marker_quiet k data st Hk Hfault) as (_ & Hc & Hp & Hf & Hl).
  cbn [ret fst snd]. repeat split; eauto.
Qed.

Lemma sharded_insert_ttl_markers c now k cols ttl :
  writes_markers cfg (Sharded.insert_ttl c cfg now k cols ttl).
Proof.
  unfold Sharded.insert_ttl. destruct (Client.ttl_given ttl) as [ t | ].
  - apply one_marker, getTTLRowKey_not_counts.
  - apply no_markers.
Qed.

Lemma lib_insert_ttl_markers k col ttl :
  writes_markers cfg
    (match Client.ttl_given ttl with
     | Some t => p <- dispatch (Lib.insert_ttl cfg k col t) ;; ret [p]
     | None => ret []
     end).
Proof.
  destruct (Client.ttl_given ttl) as [ t | ].
  - apply one_marker, ttlRowKey_not_counts.
  - apply no_markers.
Qed.

(** *** The row-creating calls *)




(** C6 fails on the revision of [src/lib/BigtableClient.ts]. There [set]
    dispatches the primary write before it checks the row: the write is
    the first request, the check that follows finds the row it has just
    created, no counter step is issued, and [count] is what it was. *)
Theorem lib_set_new_row_not_counted k v ttl column st n :
  k <> EmptyString -> fault_free st -> counter cfg st = Some n ->
  primary st !! k = None ->
  let st' := (Lib.set cfg k v ttl column st).2 in
  (exists ms,
     log st' = (log st
                ++ [Insert Primary k cf
                      {[ str_or column (Client.defaultColumn cfg) := Client.cleaned v ]};
                    Exists Primary k]
                ++ ms)%list
     /\ Forall (fun r => request_table r = Metadata) ms)
  /\ counter cfg st' = Some n
  /\ (Client.count cfg st').1 = Return (Client.RValue (Num n)).
Proof.
  intros Hk Hfault Hn _. rewrite <- map_fmap_singleton.
  exact (write_then_check_spec k _ _ _ st n
           (insert_primary_writes k _ Hk)
           (lib_insert_ttl_markers k _ ttl) Hfault Hn
           (insert_primary_creates k _ st Hk (insert_non_empty _ _ _) Hfault)).
Qed.

(** X21. In [src/lib/BigtableClient.ts], [increase] and [decrease] on a
    row that is not there send the increment first and the row check
    after it; the check finds the row, so the live-row counter is not
    stepped and [count] is what it was. *)
Lemma lib_step_by_new_row_not_counted delta k column ttl st n :
  k <> EmptyString -> fault_free st -> counter cfg st = Some n ->
  primary st !! k = None ->
  let st' := (Lib.step_by delta cfg k column ttl st).2 in
  (exists ms,
     log st' = (log st
                ++ [Increment Primary k cf
                      (str_or column (str_or (Some (Client.defaultColumn cfg)) EmptyString))
                      delta;
                    Exists Primary k]
                ++ ms)%list
     /\ Forall (fun r => request_table r = Metadata) ms)
  /\ counter cfg st' = Some n
  /\ (Client.count cfg st').1 = Return (Client.RValue (Num n)).
Proof.
  intros Hk Hfault Hn Hrow. unfold Lib.step_by. rewrite (eqb_empty_false _ Hk).
  exact (write_then_check_spec k _ _ _ st n
           (increment_primary_writes k _ delta)
           (lib_insert_ttl_markers k _ ttl) Hfault Hn
           (increment_primary_creates k _ delta st Hfault Hrow)).
Qed.


(** *** The row-deleting calls *)

(** X22. On a store that rejects nothing, [delete] deletes the cell,
    then checks the row, and steps the live-row counter down by one
    exactly when the check finds the row gone. *)
Lemma delete_decrements_after_check k column st n :
  k <> EmptyString -> fault_free st -> counter cfg st = Some n ->
  let col := str_or column (str_or (Some (Client.defaultColumn cfg)) EmptyString) in
  let st' := (Client.delete cfg k column st).2 in
  let rowExists :=
    bool_decide (is_Some (primary (row_deleteCells Primary k cf col st).2 !! k)) in
  log st' = (log st ++ [DeleteCells Primary k cf col; Exists Primary k]
             ++ if rowExists then [] else [increment_request cfg (-1)])%list
  /\ counter cfg st' = Some (if rowExists then n else n - 1).
Proof.
  intros Hk Hfault Hn. cbv zeta. unfold Client.delete.
  rewrite (eqb_empty_false _ Hk).
  set (col := str_or column _).
  assert (Hdel : (row_deleteCells Primary k cf col st).1 = Return tt
                 /\ metadata (row_deleteCells Primary k cf col st).2 = metadata st
                 /\ fault_free (row_deleteCells Primary k cf col st).2
                 /\ log (row_deleteCells Primary k cf col st).2
                    = (log st ++ [DeleteCells Primary k cf col])%list).
  { unfold row_deleteCells. rewrite serve_served by apply Hfault.
    cbn [get_table record primary].
    destruct (primary st !! k); cbn; repeat split; intros r; apply Hfault. }
  destruct Hdel as (Hr1 & Hm1 & Hf1 & Hl1).
  rewrite (bind_returned _ _ _ _ Hr1).
  set (st1 := (row_deleteCells Primary k cf col st).2) in *.
  rewrite (bind_returned _ _ _ _
             (f_equal fst (row_exists_served Primary k st1 (Hf1 _)))).
  rewrite (row_exists_served Primary k st1 (Hf1 _)). cbn [snd get_table].
  set (rowExists := bool_decide (is_Some (primary st1 !! k))).
  set (st2 := record (Exists Primary k) st1).
  assert (Hc2 : counter cfg st2 = Some n)
    by (rewrite <- Hn; apply counter_metadata; exact Hm1).
  assert (Hl2 : log st2 = (log st ++ [DeleteCells Primary k cf col; Exists Primary k])%list)
    by (unfold st2; cbn [log record]; rewrite Hl1; now rewrite <- app_assoc).
  destruct rowExists; cbn [negb].
  - cbn [ret snd]. split; [now rewrite app_nil_r | exact Hc2].
  - assert (Hf2 : fault_free st2) by now apply fault_free_record.
    destruct (increment_counts_served (-1) st2 n (Hf2 _) Hc2) as (_ & Hc & _ & Hl & _).
    split; [rewrite Hl, Hl2; now rewrite <- app_assoc | exact Hc].
Qed.

(** C5 fails on [deleteRow]. The step down is the first request, the row
    delete the second, and no existence check is made: the counter goes
    down by one for a row that was never there. *)
Theorem deleteRow_decrements_unchecked k st n :
  k <> EmptyString -> fault_free st -> counter cfg st = Some n ->
  primary st !! k = None ->
  let st' := (Client.deleteRow cfg k st).2 in
  log st' = (log st ++ [increment_request cfg (-1); DeleteRow Primary k])%list
  /\ counter cfg st' = Some (n - 1)
  /\ primary st' = primary st.
Proof.
  intros Hk Hfault Hn Hrow. cbv zeta. unfold Client.deleteRow.
  rewrite (eqb_empty_false _ Hk), bind_dispatch.
  destruct (increment_counts_served (-1) st n (Hfault _) Hn) as (_ & Hc & Hp & Hl & Hf).
  set (st1 := (row_increment Metadata Client.COUNTS cfM Client.COUNTS (-1) st).2) in *.
  rewrite bind_dispatch. cbn [await snd].
  unfold row_delete. rewrite serve_served by (rewrite Hf; apply Hfault).
  cbn [snd set_table record get_table log primary metadata].
  split; [ | split ].
  - rewrite Hl. now rewrite <- app_assoc.
  - transitivity (counter cfg st1); [now apply counter_metadata | exact Hc].
  - rewrite Hp. now apply delete_id.
Qed.

End Counter.

Lemma deleteRow_decrements_unchecked_witness :
  log (Client.deleteRow example_config "ghost" empty_store).2
  = [increment_request example_config (-1); DeleteRow Primary "ghost"]
  /\ counter example_config (Client.deleteRow example_config "ghost" empty_store).2
     = Some (0 - 1)
  /\ primary (Client.deleteRow example_config "ghost" empty_store).2 = ∅.
Proof.
  apply (deleteRow_decrements_unchecked example_config "ghost" empty_store 0);
    [discriminate | intros req; reflexivity | reflexivity | reflexivity].
Defined.

Lemma lib_set_new_row_not_counted_witness :
  (Client.count example_config
     (Lib.set example_config "user-1" (Str "alice") (Some 5) (Some "name") empty_store).2).1
  = Return (Client.RValue (Num 0)).
Proof.
  refine (proj2 (proj2 (lib_set_new_row_not_counted example_config "user-1" (Str "alice")
                          (Some 5) (Some "name") empty_store 0 _ _ _ _)));
    [discriminate | intros req; reflexivity | reflexivity | reflexivity].
Defined.

Example sharded_set_new_row_counted :
  (Client.count example_config
     (Sharded.set (Sharded.Client 3 1) example_config 1550000000000 "user-1"
        (Str "alice") (Some 5) (Some "name") empty_store).2).1
  = Return (Client.RValue (Num 1)).
Proof. vm_compute. reflexivity. Qed.

(** ** Marker keys of the sharded revision *)

Lemma w32_range x : 0 <= Murmur.w32 x < 2 ^ 32.
Proof. unfold Murmur.w32. apply Z.mod_pos_bound. lia. Qed.

Lemma murmur_v3_range key seed : 0 <= Murmur.v3 key seed < 2 ^ 32.
Proof. unfold Murmur.v3. apply w32_range. Qed.

Example murmur_v3_empty_seed0 : Murmur.v3 "" 0 = 0.
Proof. reflexivity. Qed.

Example murmur_v3_empty_seed1 : Murmur.v3 "" 1 = 0x514e28b7.
Proof. vm_compute. reflexivity. Qed.

Example murmur_v3_abc : Murmur.v3 "abc" 0 = 0xb3dd93fa.
Proof. vm_compute. reflexivity. Qed.

Example murmur_v3_test : Murmur.v3 "test" 0 = 0xba6bd213.
Proof. vm_compute. reflexivity. Qed.

Example murmur_v3_hello : Murmur.v3 "Hello, world!" 1234 = 0xfaf6cdb3.
Proof. vm_compute. reflexivity. Qed.

Example getTTLRowKey_example :
  Sharded.getTTLRowKey (Sharded.constructor None None) 1550000000000 5
  = "ttl#" ++ number_to_string
       (Murmur.v3 "1550000005000" 1 mod 3) ++ "#1550000005000".
Proof. vm_compute. reflexivity. Qed.

(** The constructor never leaves the shard count at zero. *)
Lemma constructor_clusterCount_nonzero n s :
  Sharded.clusterCount (Sharded.constructor n s) <> 0.
Proof.
  unfold Sharded.constructor, Sharded.default_to; simpl.
  destruct n as [n|]; [destruct (Z.eqb_spec n 0)|]; unfold Sharded.DEFAULT_CLUSTER_COUNT; lia.
Qed.

Lemma salt_range c t :
  0 < Sharded.clusterCount c ->
  Sharded.salt c t
  = Murmur.v3 (number_to_string t) (Sharded.murmurSeed c) mod Sharded.clusterCount c
  /\ 0 <= Sharded.salt c t < Sharded.clusterCount c.
Proof.
  intros Hn. unfold Sharded.salt.
  pose proof (murmur_v3_range (number_to_string t) (Sharded.murmurSeed c)) as Hh.
  rewrite Z.rem_mod_nonneg by lia.
  split; [reflexivity | apply Z.mod_pos_bound; lia].
Qed.

(** C2. For every TTL [ttl] (seconds), time [now], seed [s] and shard count
    [n >= 1], [getTTLRowKey] returns ["ttl#" + shard + "#" + expiry] with
    [expiry = now + ttl*1000] and [shard = murmur3(stringify expiry, s) mod n];
    the shard lies in [[0, n)] and depends on [(expiry, s, n)] only: two
    calls with the same expiry, seed and shard count give the same shard. *)
Theorem getTTLRowKey_spec (s n now ttl : Z) :
  0 < n ->
  let c := Sharded.Client n s in
  let expiry := now + ttl * 1000 in
  let shard := Murmur.v3 (number_to_string expiry) s mod n in
  Sharded.getTTLRowKey c now ttl
  = "ttl#" ++ number_to_string shard ++ "#" ++ number_to_string expiry
  /\ 0 <= shard < n
  /\ (forall now' ttl', now' + ttl' * 1000 = expiry ->
        Sharded.salt c (Sharded.deleteTimestamp now' ttl') = shard).
Proof.
  intros Hn c expiry shard.
  assert (Hexp : forall a b, Sharded.deleteTimestamp a b = a + b * 1000)
    by (intros; unfold Sharded.deleteTimestamp; lia).
  destruct (salt_range c expiry Hn) as [Hs Hr]. simpl in Hs, Hr.
  split; [|split].
  - unfold Sharded.getTTLRowKey. rewrite Hexp. fold expiry. rewrite Hs. reflexivity.
  - unfold shard. rewrite <- Hs. exact Hr.
  - intros now' ttl' He. rewrite Hexp, He. exact Hs.
Qed.

Lemma getTTLRowKey_spec_witness :
  0 < 3 /\
  Sharded.getTTLRowKey (Sharded.Client 3 1) 1550000000000 5
  = "ttl#" ++ number_to_string (Murmur.v3 (number_to_string (1550000000000 + 5 * 1000)) 1 mod 3)
       ++ "#" ++ number_to_string (1550000000000 + 5 * 1000).
Proof.
  split; [lia|].
  exact (proj1 (getTTLRowKey_spec 1 3 1550000000000 5 ltac:(lia))).
Defined.
(** ** Further properties: marker keys *)

Lemma number_to_string_inj (a b : Z) : number_to_string a = number_to_string b -> a = b.
Proof.
  unfold number_to_string. intros E.
  destruct (to_int_not_nil a) as [Ha1 Ha2]. destruct (to_int_not_nil b) as [Hb1 Hb2].
  pose proof (NilZero.isi _ Ha1 Ha2) as Ia. pose proof (NilZero.isi _ Hb1 Hb2) as Ib.
  rewrite E in Ia. rewrite Ia in Ib. injection Ib as Ib. now apply DecimalZ.to_int_inj.
Qed.

Lemma number_start_not_hash c : number_start c = true -> Ascii.eqb c "#" = false.
Proof.
  intros H. destruct c as [[] [] [] [] [] [] [] []];
    try reflexivity; vm_compute in H; discriminate H.
Qed.

Lemma no_hash_in_number (n : Z) : occurs "#" (number_to_string n) = false.
Proof.
  pose proof (number_to_string_chars n) as H.
  induction (number_to_string n) as [ | c s IH ]; [reflexivity | ].
  destruct H as [Hc Hs]. cbn [occurs].
  now rewrite (number_start_not_hash _ Hc), (IH Hs).
Qed.

(** X1. Two TTL-bearing writes of one client share a marker row exactly
    when they expire at the same millisecond. *)
Theorem getTTLRowKey_same_row (c : Sharded.client) (now ttl now' ttl' : Z) :
  Sharded.getTTLRowKey c now ttl = Sharded.getTTLRowKey c now' ttl'
  <-> now + 1000 * ttl = now' + 1000 * ttl'.
Proof.
  unfold Sharded.getTTLRowKey, Sharded.deleteTimestamp. split.
  - cbn [String.append]. intros E. injection E as E.
    apply (f_equal (split "#")) in E.
    rewrite !split_at, !split_without in E by apply no_hash_in_number.
    injection E as _ E. now apply number_to_string_inj.
  - now intros ->.
Qed.

(** ** Further properties: [init] *)

Lemma default_to_nonzero d arg : d <> 0 -> Sharded.default_to d arg <> 0.
Proof.
  intros Hd. unfold Sharded.default_to.
  destruct arg as [ n | ]; [ | exact Hd ]. now destruct (Z.eqb_spec n 0).
Qed.

Lemma to_fixed_0_bounds (x : Q) (d : Z) :
  (0 <= x)%Q -> (x <= inject_Z d)%Q -> 0 <= Sharded.to_fixed_0 x <= d.
Proof.
  intros H0 Hd. unfold Sharded.to_fixed_0.
  rewrite (proj2 (Qle_bool_iff 0 x) H0).
  pose proof (Qfloor_le (x + (1 # 2))) as Hle.
  pose proof (Qlt_floor (x + (1 # 2))) as Hlt.
  split.
  - apply Z.lt_succ_r. rewrite <- Z.add_1_r, Zlt_Qlt.
    rewrite inject_Z_plus in *. change (inject_Z 0) with 0%Q. change (inject_Z 1) with 1%Q in *. lra.
  - apply Z.lt_succ_r. rewrite <- Z.add_1_r, Zlt_Qlt.
    rewrite !inject_Z_plus in *. change (inject_Z 1) with 1%Q in *. lra.
Qed.

(** X2. Whatever the constructor is given, [init] starts the sweep job
    after a delay and never at once; when the minimum jitter is at most
    the maximum, the delay lies between the two for every draw of
    [Math.random()]. *)
Theorem init_start_is_jittered (interval minJ maxJ : option Z) (random : Q) :
  let t := Sharded.constructor_timing interval minJ maxJ in
  Sharded.start_job t random <> Sharded.AtOnce
  /\ ((0 <= random)%Q -> (random < 1)%Q ->
      Sharded.minJitterMs t <= Sharded.maxJitterMs t ->
      exists ms, Sharded.start_job t random = Sharded.After ms
                 /\ Sharded.minJitterMs t <= ms <= Sharded.maxJitterMs t).
Proof.
  cbv zeta. unfold Sharded.start_job, Sharded.constructor_timing.
  cbn [Sharded.minJitterMs Sharded.maxJitterMs].
  set (lo := Sharded.default_to Sharded.DEFAULT_MIN_JITTER_MS minJ).
  set (hi := Sharded.default_to Sharded.DEFAULT_MAX_JITTER_MS maxJ).
  assert (Hlo : (lo =? 0) = false)
    by (apply Z.eqb_neq, default_to_nonzero; discriminate).
  assert (Hhi : (hi =? 0) = false)
    by (apply Z.eqb_neq, default_to_nonzero; discriminate).
  rewrite Hlo, Hhi. cbn [negb andb]. split; [discriminate | ].
  intros H0 H1 Hle. eexists. split; [reflexivity | ].
  assert (Hd : (0 <= inject_Z (hi - lo))%Q)
    by (change 0%Q with (inject_Z 0); rewrite <- Zle_Qle; lia).
  destruct (to_fixed_0_bounds (random * inject_Z (hi - lo)) (hi - lo)) as [Ha Hb]; [nra | nra | lia].
Qed.

Lemma init_start_is_jittered_witness :
  exists ms,
    Sharded.start_job (Sharded.constructor_timing None (Some 0) None) (1 # 3)
    = Sharded.After ms
    /\ 2000 <= ms <= 30000.
Proof.
  apply (proj2 (init_start_is_jittered None (Some 0) None (1 # 3)));
    [discriminate | reflexivity | discriminate].
Defined.

Lemma instance_extends_refl i : instance_extends i i.
Proof. intros t fams fam r H1 H2. eauto. Qed.

Lemma instance_extends_trans i1 i2 i3 :
  instance_extends i1 i2 -> instance_extends i2 i3 -> instance_extends i1 i3.
Proof.
  intros H12 H23 t fams fam r H1 H2.
  destruct (H12 _ _ _ _ H1 H2) as (fams' & H1' & H2'). eauto.
Qed.

Lemma ensure_table_extends i t :
  instance_extends i (if Admin.table_exists i t then i else Admin.table_create i t).
Proof.
  unfold Admin.table_exists, Admin.table_create.
  destruct (bool_decide_reflect (is_Some (i !! t))) as [ _ | Hno ];
    [apply instance_extends_refl | ].
  intros t' fams fam r H1 H2. exists fams. split; [ | exact H2 ].
  rewrite lookup_insert_ne; [exact H1 | ].
  intros ->. apply Hno. eauto.
Qed.

Lemma ensure_family_extends i t fam r :
  instance_extends i
    (if Admin.family_exists i t fam then i else Admin.family_create i t fam r).
Proof.
  unfold Admin.family_exists, Admin.family_create.
  destruct (i !! t) as [ fams | ] eqn:Et.
  - destruct (bool_decide_reflect (is_Some (fams !! fam))) as [ _ | Hno ];
      [apply instance_extends_refl | ].
    intros t' fams' fam' r' H1 H2. destruct (decide (t = t')) as [ <- | Hne ].
    + rewrite Et in H1. injection H1 as <-.
      exists (<[fam := r]> fams). split; [apply lookup_insert_eq | ].
      rewrite lookup_insert_ne; [exact H2 | ].
      intros ->. apply Hno. eauto.
    + exists fams'. split; [now rewrite lookup_insert_ne | exact H2].
  - intros t' fams' fam' r' H1 H2. exists fams'. split; [ | exact H2 ].
    rewrite lookup_insert_ne; [exact H1 | ]. intros ->. congruence.
Qed.

Lemma ensure_table_exists i t :
  Admin.table_exists (if Admin.table_exists i t then i else Admin.table_create i t) t = true.
Proof.
  destruct (Admin.table_exists i t) eqn:E; [exact E | ].
  unfold Admin.table_exists, Admin.table_create. apply bool_decide_eq_true_2.
  rewrite lookup_insert_eq. eauto.
Qed.

Lemma ensure_family_exists i t fam r :
  Admin.family_exists
    (if Admin.family_exists i t fam then i else Admin.family_create i t fam r) t fam = true.
Proof.
  destruct (Admin.family_exists i t fam) eqn:E; [exact E | ].
  unfold Admin.family_exists, Admin.family_create.
  rewrite lookup_insert_eq. apply bool_decide_eq_true_2.
  rewrite lookup_insert_eq. eauto.
Qed.

Lemma family_exists_extends i i' t fam :
  instance_extends i i' -> Admin.family_exists i t fam = true ->
  Admin.family_exists i' t fam = true.
Proof.
  unfold Admin.family_exists. intros Hext H.
  destruct (i !! t) as [ fams | ] eqn:Et; [ | discriminate ].
  apply bool_decide_eq_true in H as [r Hr].
  destruct (Hext _ _ _ _ Et Hr) as (fams' & -> & Hr').
  apply bool_decide_eq_true_2. eauto.
Qed.

(** X3. [init] on a client that is not initialised leaves both tables
    with their column families in place, creates only what is missing (a
    family that exists keeps its rule, whatever the configuration says),
    and a second [init] changes nothing. *)
Theorem init_creates_what_is_missing (cc : Sharded.client_config) (t : Sharded.timing)
    (random random' : Q) (i : Admin.instance) :
  let cf := default Sharded.DEFAULT_COLUMN_FAMILY (Sharded.columnFamily cc) in
  let r := Sharded.init cc t random Sharded.constructed i in
  Admin.family_exists r.2 (Sharded.name cc) cf = true
  /\ Admin.family_exists r.2 (Sharded.name cc ++ "_metadata") (cf ++ "_metadata") = true
  /\ instance_extends i r.2
  /\ Sharded.fields_config r.1
     = Some (Client.Config cf (cf ++ "_metadata")
               (default Sharded.DEFAULT_COLUMN (Sharded.config_defaultColumn cc)))
  /\ Sharded.init cc t random' r.1 r.2 = r.
Proof.
  cbv zeta. unfold Sharded.init. cbn [Sharded.isInitialized Sharded.constructed fst snd].
  set (cf := default _ (Sharded.columnFamily cc)).
  set (rule := match Sharded.maxAgeSecond cc with Some _ => _ | None => _ end).
  set (i1 := if Admin.table_exists i (Sharded.name cc) then _ else _).
  set (i2 := if Admin.family_exists i1 _ _ then _ else _).
  set (i3 := if Admin.table_exists i2 _ then _ else _).
  set (i4 := if Admin.family_exists i3 _ _ then _ else _).
  assert (H12 : instance_extends i1 i2) by apply ensure_family_extends.
  assert (H23 : instance_extends i2 i3) by apply ensure_table_extends.
  assert (H34 : instance_extends i3 i4) by apply ensure_family_extends.
  split; [ | split; [ | split; [ | split ] ] ].
  - apply (family_exists_extends i2);
      [exact (instance_extends_trans _ _ _ H23 H34) | apply ensure_family_exists].
  - apply ensure_family_exists.
  - apply (instance_extends_trans _ i1); [apply ensure_table_extends | ].
    apply (instance_extends_trans _ i2); [exact H12 | ].
    exact (instance_extends_trans _ _ _ H23 H34).
  - reflexivity.
  - reflexivity.
Qed.

(** ** Further properties: [multiAdd] *)

Lemma elem_of_keys (data : gmap string value) key v :
  data !! key = Some v -> key ∈ Client.keys data.
Proof.
  intros H. unfold Client.keys. apply list_elem_of_fmap.
  exists (key, v). split; [reflexivity | now apply elem_of_map_to_list].
Qed.

Lemma keys_lookup (data : gmap string value) key :
  key ∈ Client.keys data -> exists v, data !! key = Some v.
Proof.
  unfold Client.keys. intros H. apply list_elem_of_fmap in H as ([k v] & -> & H).
  exists v. now apply elem_of_map_to_list.
Qed.

Lemma filter_rules_undefined rs :
  None ∈ rs ->
  Lib.filter_rules rs = Throw (TypeError "Cannot read property 'increment' of undefined").
Proof.
  induction rs as [ | [r | ] rs IH ]; intros H.
  - now apply elem_of_nil in H.
  - apply elem_of_cons in H as [ H | H ]; [discriminate | ].
    cbn [Lib.filter_rules]. now rewrite (IH H).
  - reflexivity.
Qed.

(** X4. In [src/lib/BigtableClient.ts], [multiAdd] with a column whose
    value is not a number throws a [TypeError] before any request is
    sent: neither the numbers of the same call are added nor a marker is
    written. *)
Theorem lib_multiAdd_rejects_non_number
    (createRules : string -> list (string * string * Z) -> M unit)
    (cfg : Client.config) (k : string) (data : gmap string value) (ttl : option Z)
    (st : store) (key : string) (v : value) :
  data !! key = Some v -> (forall n, v <> Num n) ->
  Lib.multiAdd createRules cfg k (Some data) ttl st
  = (Throw (TypeError "Cannot read property 'increment' of undefined"), st).
Proof.
  intros Hkey Hv. unfold Lib.multiAdd, bind, await.
  rewrite filter_rules_undefined; [reflexivity | ].
  unfold Lib.mapped_rules. apply list_elem_of_In, in_map_iff.
  exists key. split; [ | apply list_elem_of_In; now apply (elem_of_keys _ _ v) ].
  rewrite Hkey. destruct v as [ | [ | b | n | s | l | l ] ]; try reflexivity.
  now destruct (Hv n).
Qed.

Lemma lib_multiAdd_rejects_non_number_witness :
  Lib.multiAdd increments_in_turn example_config "user-1"
    (Some {[ "visits" := Num 2; "name" := Str "alice" ]}) (Some 5) empty_store
  = (Throw (TypeError "Cannot read property 'increment' of undefined"), empty_store).
Proof.
  apply (lib_multiAdd_rejects_non_number _ _ _ _ _ _ "name" (Str "alice"));
    [reflexivity | discriminate].
Defined.




(** ** Further properties: writes, reads and the counter together *)

Section Composition.

Variable cfg : Client.config.

#[local] Abbreviation cf := (Client.cfName cfg).
#[local] Abbreviation cfM := (Client.cfNameMetadata cfg).

Lemma str_or_default (column : option string) (d : string) :
  str_or column (str_or (Some d) EmptyString) = str_or column d.
Proof. now destruct d. Qed.

(** A step of the counter touches the metadata table only. *)
Lemma increment_metadata_only k fam col delta st :
  primary (row_increment Metadata k fam col delta st).2 = primary st
  /\ fault (row_increment Metadata k fam col delta st).2 = fault st.
Proof.
  unfold row_increment, serve. cbn [fault record get_table metadata clock].
  destruct (fault st _); [split; reflexivity | ].
  destruct (family_of (metadata st) k fam !! col)
    as [ [ | [ [ | [ | b | m | s | l | l ] ] ts ] old ] | ]; split; reflexivity.
Qed.

(** The state in which the sharded revision makes its primary write: the
    primary table is still the one the call started with. *)
Lemma check_then_write_reaches markers k (w : M unit) st :
  writes_markers cfg markers -> fault_free st ->
  exists st3,
    (check_then_write cfg markers k w st).2 = (w st3).2
    /\ primary st3 = primary st /\ fault_free st3.
Proof.
  intros Hm Hfault. unfold check_then_write.
  destruct (Hm st Hfault) as ((ps1 & Hps1) & _ & Hp1 & Hf1 & _).
  rewrite (bind_returned _ _ _ _ Hps1).
  set (st1 := (markers st).2) in *.
  rewrite (bind_returned _ _ _ _
             (f_equal fst (row_exists_served Primary k st1 (Hf1 _)))).
  rewrite (row_exists_served Primary k st1 (Hf1 _)). cbn [snd].
  set (st2 := record (Exists Primary k) st1).
  destruct (negb _).
  - rewrite (bind_returned (p <- dispatch _ ;; ret [p]) _ st2
               [(Sharded.increment_counts cfg 1 st2).1])
      by (rewrite bind_dispatch; reflexivity).
    rewrite bind_dispatch. cbn [ret snd]. rewrite bind_dispatch. cbn [await snd].
    destruct (increment_metadata_only Client.COUNTS cfM Client.COUNTS 1 st2) as [Hp Hf].
    exists (row_increment Metadata Client.COUNTS cfM Client.COUNTS 1 st2).2.
    split; [reflexivity | ]. split.
    + rewrite Hp. exact Hp1.
    + intros req. rewrite Hf. apply Hf1.
  - cbn [bind ret]. rewrite bind_dispatch. cbn [await snd].
    exists st2. split; [reflexivity | split; [exact Hp1 | now apply fault_free_record] ].
Qed.

(** [insert] into the primary table, spelled out. *)
Lemma insert_primary_state k (data : gmap string value) st :
  k <> EmptyString -> fault_free st ->
  let st' := (Client.insert (Some Primary) cf k (Some data) st).2 in
  primary st'
  = put_family (primary st) k cf
      (union_with (fun new old => Some (new ++ old)%list)
         ((fun v => [Cell v (clock st)]) <$> (Client.cleaned <$> data))
         (family_of (primary st) k cf))
  /\ metadata st' = metadata st
  /\ fault_free st'.
Proof.
  intros Hk Hfault. cbv zeta. unfold Client.insert, table_insert.
  rewrite (eqb_empty_false _ Hk), serve_served by apply Hfault.
  cbn [snd set_table record primary metadata get_table clock].
  repeat split. intros req. apply Hfault.
Qed.

Lemma family_of_absent (tb : table) k fam : tb !! k = None -> family_of tb k fam = ∅.
Proof. unfold family_of. intros ->. cbn. now rewrite lookup_empty. Qed.

Lemma family_of_put_family (tb : table) k fam (f : family) :
  f <> ∅ -> family_of (put_family tb k fam f) k fam = f.
Proof.
  intros Hf. unfold family_of.
  rewrite (lookup_put_family _ _ _ _ Hf). cbn.
  now rewrite lookup_insert_eq.
Qed.

(** Deleting the only cell of a row takes the row away. *)
Lemma put_family_delete_only (tb : table) k fam col (cs : list cell) :
  tb !! k = None ->
  put_family (put_family tb k fam {[ col := cs ]}) k fam (delete col {[ col := cs ]}) = tb.
Proof.
  intros Hrow.
  assert (H1 : put_family tb k fam {[ col := cs ]} = <[k := <[fam := {[ col := cs ]}]> ∅]> tb).
  { unfold put_family. cbv zeta. rewrite Hrow. cbn.
    destruct (decide (({[ col := cs ]} : family) = ∅)) as [ E | _ ];
      [exfalso; exact (insert_non_empty _ _ _ E) | ].
    destruct (decide (_ = ∅)) as [ E | _ ];
      [exfalso; exact (insert_non_empty _ _ _ E) | reflexivity ]. }
  rewrite H1, delete_singleton_eq. unfold put_family. cbv zeta.
  rewrite lookup_insert_eq. cbn.
  destruct (decide ((∅ : family) = ∅)) as [ _ | E ]; [ | now destruct E ].
  rewrite delete_insert_eq, delete_empty.
  destruct (decide ((∅ : row) = ∅)) as [ _ | E ]; [ | now destruct E ].
  rewrite delete_insert_eq. now apply delete_id.
Qed.

(** What [getRow] reads from a row that is there. *)
Lemma getRow_present k st (r : row) :
  k <> EmptyString -> fault_free st -> primary st !! k = Some r ->
  (Client.getRow cfg k st).1
  = Return (Client.RRow
              ((fun c => Client.getParsedValue (cell_value c))
               <$> omap (fun cs => match head cs with
                                   | Some c => if truthy (cell_value c) then Some c else None
                                   | None => None
                                   end) (default ∅ (r !! cf)))).
Proof.
  intros Hk Hfault Hrow. unfold Client.getRow, Client.retrieve.
  rewrite (eqb_empty_false _ Hk). cbn [Client.identifier].
  rewrite (row_get_present Primary k None st r (Hfault _) Hrow). reflexivity.
Qed.

(** The column [col] of a row just written by [insert], as [getRow] gives
    it. *)
Lemma getRow_after_insert k (data : gmap string value) col v st :
  k <> EmptyString -> fault_free st -> data !! col = Some v ->
  exists m,
    (Client.getRow cfg k (Client.insert (Some Primary) cf k (Some data) st).2).1
    = Return (Client.RRow m)
    /\ m !! col = if truthy (Client.cleaned v)
                  then Some (Client.getParsedValue (Client.cleaned v)) else None.
Proof.
  intros Hk Hfault Hcol.
  destruct (insert_primary_state k data st Hk Hfault) as (Hp & _ & Hf).
  set (st' := (Client.insert (Some Primary) cf k (Some data) st).2) in *.
  set (F := union_with _ _ _) in Hp.
  assert (HF : F !! col = Some (Cell (Client.cleaned v) (clock st)
                                 :: default [] (family_of (primary st) k cf !! col))).
  { unfold F. rewrite lookup_union_with, !lookup_fmap, Hcol. cbn.
    destruct (family_of (primary st) k cf !! col); reflexivity. }
  assert (Hne : F <> ∅) by (intros E; rewrite E, lookup_empty in HF; discriminate).
  assert (Hrow : primary st' !! k = Some (<[cf := F]> (default ∅ (primary st !! k))))
    by (rewrite Hp; apply (lookup_put_family _ _ _ _ Hne)).
  eexists. split; [apply (getRow_present k st' _ Hk Hf Hrow) | ].
  rewrite lookup_fmap, lookup_omap. cbn. rewrite lookup_insert_eq. cbn.
  rewrite HF. cbn. now destruct (truthy (Client.cleaned v)).
Qed.


Lemma sharded_multiSet_shape c now k (columnsObject : gmap string value) ttl :
  columnsObject <> ∅ ->
  Sharded.multiSet c cfg now k columnsObject ttl
  = check_then_write cfg (Sharded.insert_ttl c cfg now k (Client.keys columnsObject) ttl) k
      (Client.insert (Some Primary) cf k (Some columnsObject)).
Proof.
  intros Hdata. unfold Sharded.multiSet.
  destruct (Client.keys columnsObject) as [ | col cols ] eqn:E; [ | reflexivity ].
  exfalso. apply Hdata, map_to_list_empty_iff.
  unfold Client.keys in E. now apply fmap_nil_inv in E.
Qed.

(** X6. In the sharded revision, a column written by [multiSet] reads back
    through [getRow] as the parsed form of what was stored, and a column
    whose stored value is the empty string (a value of [0], [false],
    [null] or the empty string) is left out of the row. *)
Theorem sharded_multiSet_then_getRow c now k (columnsObject : gmap string value) ttl
    col v st :
  k <> EmptyString -> fault_free st -> columnsObject !! col = Some v ->
  exists m,
    (Client.getRow cfg k (Sharded.multiSet c cfg now k columnsObject ttl st).2).1
    = Return (Client.RRow m)
    /\ m !! col = if truthy (Client.cleaned v)
                  then Some (Client.getParsedValue (Client.cleaned v)) else None.
Proof.
  intros Hk Hfault Hcol.
  assert (Hdata : columnsObject <> ∅)
    by (intros E; rewrite E, lookup_empty in Hcol; discriminate).
  rewrite (sharded_multiSet_shape _ _ _ _ _ Hdata).
  destruct (check_then_write_reaches _ k
              (Client.insert (Some Primary) cf k (Some columnsObject)) st
              (sharded_insert_ttl_markers cfg c now k (Client.keys columnsObject) ttl) Hfault)
    as (st3 & -> & _ & Hf3).
  now apply getRow_after_insert.
Qed.

(** X7. In the sharded revision, an object or array written by [set] is
    stored as its JSON text: [get] returns that text as it is, without
    parsing it, while [getRow] returns the value parsed back. *)
Theorem sharded_set_object_reads c now k (j : json) ttl col st :
  k <> EmptyString -> col <> EmptyString -> fault_free st ->
  j <> JNull -> typeof_object (Val j) = true ->
  let st' := (Sharded.set c cfg now k (Val j) ttl (Some col) st).2 in
  (Client.get cfg k (Some col) st').1 = Return (Client.RValue (Str (JSON.stringify j)))
  /\ exists m, (Client.getRow cfg k st').1 = Return (Client.RRow m)
               /\ m !! col = Some (Val j).
Proof.
  intros Hk Hcol Hfault Hnull Hobj. cbv zeta.
  assert (Hc : str_or (Some col) (Client.defaultColumn cfg) = col)
    by (destruct col; [congruence | reflexivity]).
  assert (Hc' : str_or (Some col) (str_or (Some (Client.defaultColumn cfg)) EmptyString) = col)
    by (destruct col; [congruence | reflexivity]).
  change (Sharded.set c cfg now k (Val j) ttl (Some col))
    with (check_then_write cfg
            (Sharded.insert_ttl c cfg now k [str_or (Some col) (Client.defaultColumn cfg)] ttl) k
            (Client.insert (Some Primary) cf k
               (Some {[ str_or (Some col) (Client.defaultColumn cfg) := Val j ]}))).
  rewrite Hc.
  destruct (check_then_write_reaches _ k
              (Client.insert (Some Primary) cf k (Some {[ col := Val j ]})) st
              (sharded_insert_ttl_markers cfg c now k [col] ttl) Hfault)
    as (st3 & -> & _ & Hf3).
  split.
  - unfold Client.get. rewrite (eqb_empty_false _ Hk), Hc'.
    rewrite (insert_then_retrieve st3 Primary cf k col (Val j) Hk Hcol Hf3).
    now rewrite (cleaned_composite j Hnull Hobj).
  - destruct (getRow_after_insert k {[ col := Val j ]} col (Val j) st3 Hk Hf3
                (lookup_singleton_eq _ _)) as (m & Hm & Hlook).
    exists m. split; [exact Hm | ].
    rewrite Hlook, (cleaned_composite j Hnull Hobj). unfold Str at 1. cbn [truthy].
    now rewrite stringify_not_empty, getParsedValue_stringify.
Qed.

(** What [delete] leaves behind. *)
Lemma delete_effect k column st n :
  k <> EmptyString -> fault_free st -> counter cfg st = Some n ->
  let col := str_or column (str_or (Some (Client.defaultColumn cfg)) EmptyString) in
  let st1 := (row_deleteCells Primary k cf col st).2 in
  let st' := (Client.delete cfg k column st).2 in
  primary st' = primary st1
  /\ counter cfg st'
     = Some (if bool_decide (is_Some (primary st1 !! k)) then n else n - 1).
Proof.
  intros Hk Hfault Hn. cbv zeta. unfold Client.delete.
  rewrite (eqb_empty_false _ Hk).
  set (col := str_or column _).
  assert (Hdel : (row_deleteCells Primary k cf col st).1 = Return tt
                 /\ metadata (row_deleteCells Primary k cf col st).2 = metadata st
                 /\ fault_free (row_deleteCells Primary k cf col st).2).
  { unfold row_deleteCells. rewrite serve_served by apply Hfault.
    cbn [get_table record primary].
    destruct (primary st !! k); cbn; repeat split; intros r; apply Hfault. }
  destruct Hdel as (Hr1 & Hm1 & Hf1).
  rewrite (bind_returned _ _ _ _ Hr1).
  set (st1 := (row_deleteCells Primary k cf col st).2) in *.
  rewrite (bind_returned _ _ _ _
             (f_equal fst (row_exists_served Primary k st1 (Hf1 _)))).
  rewrite (row_exists_served Primary k st1 (Hf1 _)). cbn [snd get_table].
  set (st2 := record (Exists Primary k) st1).
  assert (Hc2 : counter cfg st2 = Some n)
    by (rewrite <- Hn; apply counter_metadata; exact Hm1).
  destruct (bool_decide (is_Some (primary st1 !! k))); cbn [negb].
  - cbn [ret snd]. split; [reflexivity | exact Hc2].
  - assert (Hf2 : fault_free st2) by now apply fault_free_record.
    destruct (increment_counts_served cfg (-1) st2 n (Hf2 _) Hc2) as (_ & Hc & Hp & _ & _).
    split; [exact Hp | exact Hc].
Qed.

(** X8. In the sharded revision, [set] on a row that is not there followed
    by [delete] of the same column brings back the primary table and the
    live-row counter as they were. *)
Theorem sharded_set_then_delete_restores c now k v ttl column st n :
  k <> EmptyString -> fault_free st -> counter cfg st = Some n ->
  primary st !! k = None ->
  let st1 := (Sharded.set c cfg now k v ttl column st).2 in
  let st2 := (Client.delete cfg k column st1).2 in
  counter cfg st1 = Some (n + 1)
  /\ primary st2 = primary st
  /\ counter cfg st2 = Some n.
Proof.
  intros Hk Hfault Hn Hrow. cbv zeta.
  set (col := str_or column (Client.defaultColumn cfg)).
  pose proof (check_then_write_spec cfg
                (Sharded.insert_ttl c cfg now k [col] ttl) k
                (Client.insert (Some Primary) cf k (Some {[ col := v ]})) _ st n
                (sharded_insert_ttl_markers cfg c now k [col] ttl)
                (insert_primary_writes cfg k {[ col := v ]} Hk) Hfault Hn) as (_ & Hc1 & _).
  rewrite (bool_decide_eq_false_2 (is_Some (primary st !! k))) in Hc1
    by (rewrite Hrow; apply is_Some_None).
  destruct (check_then_write_reaches
              (Sharded.insert_ttl c cfg now k [col] ttl) k
              (Client.insert (Some Primary) cf k (Some {[ col := v ]})) st
              (sharded_insert_ttl_markers cfg c now k [col] ttl) Hfault)
    as (st3 & Hst & Hp3 & Hf3).
  change (Sharded.set c cfg now k v ttl column)
    with (check_then_write cfg (Sharded.insert_ttl c cfg now k [col] ttl) k
            (Client.insert (Some Primary) cf k (Some {[ col := v ]}))).
  set (st1 := (check_then_write cfg _ k _ st).2) in *.
  destruct (insert_primary_state k {[ col := v ]} st3 Hk Hf3) as (Hp & _ & Hf1).
  rewrite <- Hst in Hp, Hf1.
  rewrite Hp3, (family_of_absent _ _ _ Hrow), !map_fmap_singleton in Hp.
  rewrite (right_id ∅ (union_with _)) in Hp.
  set (F := ({[ col := [Cell (Client.cleaned v) (clock st3)] ]} : family)) in Hp.
  assert (HF : F <> ∅) by apply insert_non_empty.
  split; [exact Hc1 | ].
  destruct (delete_effect k column st1 (n + 1) Hk Hf1 Hc1) as (Hp2 & Hc2).
  rewrite str_or_default in Hp2, Hc2. fold col in Hp2, Hc2.
  assert (Hgone : primary (row_deleteCells Primary k cf col st1).2 = primary st).
  { unfold row_deleteCells. rewrite serve_served by apply Hf1.
    cbn [get_table record primary]. rewrite Hp.
    assert (Hk1 : put_family (primary st) k cf F !! k
                  = Some (<[cf := F]> (default ∅ (primary st !! k))))
      by apply (lookup_put_family _ _ _ _ HF).
    rewrite Hk1. cbn [snd set_table primary].
    rewrite (family_of_put_family _ _ _ _ HF).
    now apply put_family_delete_only. }
  rewrite Hgone in Hp2, Hc2.
  rewrite (bool_decide_eq_false_2 (is_Some (primary st !! k))) in Hc2
    by (rewrite Hrow; apply is_Some_None).
  split; [exact Hp2 | ]. rewrite Hc2. f_equal. lia.
Qed.

End Composition.

(** *** Instances *)

Lemma sharded_multiSet_then_getRow_witness :
  exists m,
    (Client.getRow example_config "user-1"
       (Sharded.multiSet (Sharded.Client 3 1) example_config 1550000000000 "user-1"
          {[ "name" := Str "alice" ]} (Some 5) empty_store).2).1
    = Return (Client.RRow m)
    /\ m !! "name" = Some (Str "alice").
Proof.
  refine (sharded_multiSet_then_getRow example_config (Sharded.Client 3 1) 1550000000000
            "user-1" {[ "name" := Str "alice" ]} (Some 5) "name" (Str "alice")
            empty_store _ _ _);
    [discriminate | intros req; reflexivity | reflexivity].
Defined.

Lemma sharded_set_object_reads_witness :
  (Client.get example_config "user-1" (Some "tags")
     (Sharded.set (Sharded.Client 3 1) example_config 1550000000000 "user-1"
        (Val (JArr [JNum 1; JNum 2])) None (Some "tags") empty_store).2).1
  = Return (Client.RValue (Str "[1,2]")).
Proof.
  refine (proj1 (sharded_set_object_reads example_config (Sharded.Client 3 1) 1550000000000
                   "user-1" (JArr [JNum 1; JNum 2]) None "tags" empty_store _ _ _ _ _));
    [discriminate | discriminate | intros req; reflexivity | discriminate | reflexivity].
Defined.

Lemma sharded_set_then_delete_restores_witness :
  primary (Client.delete example_config "user-1" (Some "name")
             (Sharded.set (Sharded.Client 3 1) example_config 1550000000000 "user-1"
                (Str "alice") (Some 5) (Some "name") empty_store).2).2
  = primary empty_store.
Proof.
  refine (proj1 (proj2 (sharded_set_then_delete_restores example_config (Sharded.Client 3 1)
                          1550000000000 "user-1" (Str "alice") (Some 5) (Some "name")
                          empty_store 0 _ _ _ _)));
    [discriminate | intros req; reflexivity | reflexivity | reflexivity].
Defined.




Lemma lib_step_by_new_row_not_counted_witness :
  (Client.count example_config
     (Lib.step_by 2 example_config "user-1" (Some "visits") None empty_store).2).1
  = Return (Client.RValue (Num 0)).
Proof.
  refine (proj2 (proj2 (lib_step_by_new_row_not_counted example_config 2 "user-1"
                          (Some "visits") None empty_store 0 _ _ _ _)));
    [discriminate | intros req; reflexivity | reflexivity | reflexivity].
Defined.

Lemma delete_decrements_after_check_witness :
  counter example_config (Client.delete example_config "user:1" (Some "name") one_cell_store).2
  = Some (0 - 1).
Proof.
  refine (proj2 (delete_decrements_after_check example_config "user:1" (Some "name")
                   one_cell_store 0 _ _ _));
    [discriminate | intros req; reflexivity | reflexivity].
Defined.

(** ** Further properties: read paths, stored values, the timer *)

(** X9. When the store rejects [row.get] with an error, [retrieve], [get]
    and [getRow] resolve with [null] and [count] with [0] if the message
    of the error starts with [Unknown row]; otherwise each of them
    rejects with that same error. *)
Theorem read_paths_on_store_error (cfg : Client.config) (st : store) (e : error)
    (k : string) (column : option string) (complete : bool) :
  k <> EmptyString ->
  (forall t k' c, fault st (Get t k' c) = Some e) ->
  let found := startsWith "Unknown row" (err_message e) in
  let answer := if found then Return Client.RNull else Throw e in
  (Client.retrieve (Some Primary) (Client.cfName cfg) k column complete st).1 = answer
  /\ (Client.get cfg k column st).1 = answer
  /\ (Client.getRow cfg k st).1 = answer
  /\ (Client.count cfg st).1
     = if found then Return (Client.RValue (Num 0)) else Throw e.
Proof.
  intros Hk Hfault. cbv zeta.
  assert (Hget : forall t k' c, row_get t k' c st = (Throw e, record (Get t k' c) st))
    by (intros; unfold row_get; now apply serve_rejected).
  split; [ | split; [ | split ] ].
  - now rewrite (retrieve_rejected _ _ _ _ _ _ _ _ Hk (Hget _ _ _)).
  - now rewrite (get_rejected _ _ _ _ _ _ Hk (Hget _ _ _)).
  - now rewrite (getRow_rejected cfg _ _ _ _ Hk (Hget _ _ _)).
  - now rewrite (count_rejected _ _ _ _ (Hget _ _ _)).
Qed.

Lemma read_paths_on_store_error_witness :
  (Client.get example_config "user-1" None
     (Store ∅ ∅ [] (fun _ => Some (Error "Error" "14 UNAVAILABLE")) 0)).1
  = Throw (Error "Error" "14 UNAVAILABLE").
Proof.
  refine (proj1 (proj2 (read_paths_on_store_error example_config
                          (Store ∅ ∅ [] (fun _ => Some (Error "Error" "14 UNAVAILABLE")) 0)
                          (Error "Error" "14 UNAVAILABLE") "user-1" None false _ _)));
    [discriminate | reflexivity].
Defined.

(** X10. What [insert] hands to the store is always a string, a number
    other than [0] or [true], never an object, [null], [undefined], [0]
    or [false]; and sanitizing a sanitized value changes nothing, so
    writing back what was stored stores the same. *)
Theorem cleaned_is_scalar_and_stable (v : value) :
  ((exists s, Client.cleaned v = Str s)
   \/ (exists n, n <> 0 /\ Client.cleaned v = Num n)
   \/ Client.cleaned v = Bool true)
  /\ Client.cleaned (Client.cleaned v) = Client.cleaned v.
Proof.
  destruct v as [ | [ | [] | n | s | l | l ] ].
  - split; [left; now exists EmptyString | reflexivity].
  - split; [left; now exists EmptyString | reflexivity].
  - split; [right; right; reflexivity | reflexivity].
  - split; [left; now exists EmptyString | reflexivity].
  - rewrite cleaned_scalar by reflexivity. unfold or_else. cbn [truthy].
    destruct (Z.eqb_spec n 0) as [ -> | Hn ]; cbn [negb].
    + split; [left; now exists EmptyString | reflexivity].
    + split; [right; left; now exists n | ].
      rewrite cleaned_scalar by reflexivity. unfold or_else. cbn [truthy].
      now rewrite (proj2 (Z.eqb_neq n 0) Hn).
  - rewrite cleaned_scalar by reflexivity. unfold or_else. cbn [truthy].
    destruct (String.eqb s EmptyString) eqn:E; cbn [negb].
    + split; [left; now exists EmptyString | reflexivity].
    + split; [left; now exists s | ].
      rewrite cleaned_scalar by reflexivity. unfold or_else. cbn [truthy]. now rewrite E.
  - rewrite cleaned_composite by (congruence || reflexivity).
    split; [left; eauto | ].
    rewrite cleaned_scalar by reflexivity. unfold or_else, Str. cbn [truthy].
    now rewrite stringify_not_empty.
  - rewrite cleaned_composite by (congruence || reflexivity).
    split; [left; eauto | ].
    rewrite cleaned_scalar by reflexivity. unfold or_else, Str. cbn [truthy].
    now rewrite stringify_not_empty.
Qed.

(** X11. From [init] on, whatever timeouts fire, sweeps settle and
    [close] calls happen, at most one sweep is in flight and at most one
    timeout is armed, and none is armed while a sweep runs: the next
    sweep is scheduled only when the one before has settled. *)
Theorem sweeps_never_overlap (es : list Lib.event) (s : Lib.scheduler) :
  Lib.run es Lib.initialised = Some s ->
  (Lib.running s <= 1)%nat
  /\ (length (Lib.armed s) <= 1)%nat
  /\ (Lib.running s = 1%nat -> Lib.armed s = []).
Proof.
  intros Hrun.
  destruct (scheduler_inv_run _ _ _ scheduler_inv_initialised Hrun)
    as [ (Hr & [Ha | (h & Ha & _)]) | (Hr & Ha) ];
    rewrite Hr, Ha; cbn; repeat split; try lia; congruence.
Qed.

Lemma sweeps_never_overlap_witness :
  (Lib.running (Lib.Scheduler (Some 1%nat) [1%nat] 2 0 1) <= 1)%nat
  /\ (length (Lib.armed (Lib.Scheduler (Some 1%nat) [1%nat] 2 0 1)) <= 1)%nat
  /\ (Lib.running (Lib.Scheduler (Some 1%nat) [1%nat] 2 0 1) = 1%nat
      -> Lib.armed (Lib.Scheduler (Some 1%nat) [1%nat] 2 0 1) = []).
Proof.
  exact (sweeps_never_overlap [Lib.Fire 0; Lib.Settle] _ eq_refl).
Defined.

(** X12. [close()] called while no sweep is in flight ends the job: after
    it no timeout fires and no sweep starts, whatever happens next. *)
Theorem close_while_idle_ends_the_job (es es' : list Lib.event) (s s' : Lib.scheduler) :
  Lib.run es Lib.initialised = Some s ->
  Lib.running s = 0%nat ->
  Lib.run es' (Lib.close s) = Some s' ->
  Lib.started s' = Lib.started s /\ Lib.armed s' = [] /\ Lib.running s' = 0%nat.
Proof.
  intros Hrun Hidle Hrun'.
  pose proof (scheduler_inv_run _ _ _ scheduler_inv_initialised Hrun) as Hinv.
  split; [exact (close_idle_is_final _ _ _ Hinv Hidle Hrun') | ].
  assert (Hdead : Lib.running (Lib.close s) = 0%nat /\ Lib.armed (Lib.close s) = []).
  { unfold Lib.close.
    destruct Hinv as [ (_ & [Ha | (h' & Ha & Ht)]) | (Hrun'' & _) ]; [ | | congruence ].
    - destruct (Lib.tov s); cbn; rewrite ?Ha; auto.
    - rewrite Ht. cbn. rewrite Ha, filter_cons, decide_False by tauto. auto. }
  destruct Hdead as (Hr & Ha). revert Hr Ha Hrun'.
  generalize (Lib.close s) as c. clear.
  induction es' as [ | e es' IH ]; intros c Hr Ha; cbn [Lib.run].
  - intros [= <-]. auto.
  - destruct e as [ h | | ]; cbn [Lib.step].
    + rewrite Ha. rewrite bool_decide_eq_false_2 by apply not_elem_of_nil. discriminate.
    + rewrite Hr. discriminate.
    + apply IH.
      * unfold Lib.close, Lib.clearTimeout. now destruct (Lib.tov c).
      * unfold Lib.close, Lib.clearTimeout. destruct (Lib.tov c); cbn; now rewrite ?Ha.
Qed.

Lemma close_while_idle_ends_the_job_witness :
  Lib.started (Lib.Scheduler (Some 1%nat) [] 2 0 1) = 1%nat
  /\ Lib.armed (Lib.Scheduler (Some 1%nat) [] 2 0 1) = []
  /\ Lib.running (Lib.Scheduler (Some 1%nat) [] 2 0 1) = 0%nat.
Proof.
  exact (close_while_idle_ends_the_job [Lib.Fire 0; Lib.Settle] [Lib.Close]
           (Lib.Scheduler (Some 1%nat) [1%nat] 2 0 1) _ eq_refl eq_refl eq_refl).
Defined.

(** ** What a sweep sends *)

Lemma sends_only_ret {A} P (a : A) : sends_only P (ret a).
Proof. intros st. exists []. cbn. now rewrite app_nil_r. Qed.

Lemma sends_only_await {A} P (p : promise A) : sends_only P (await p).
Proof. intros st. exists []. cbn. now rewrite app_nil_r. Qed.

Lemma sends_only_bind {A B} P (m : M A) (k : A -> M B) :
  sends_only P m -> (forall a, sends_only P (k a)) -> sends_only P (bind m k).
Proof.
  intros Hm Hk st. unfold bind. destruct (Hm st) as (r1 & E1 & F1).
  destruct (m st) as [ [ a | e ] st1 ]; cbn [snd] in *.
  - destruct (Hk a st1) as (r2 & E2 & F2).
    exists (r1 ++ r2)%list. rewrite E2, E1, app_assoc. split; [reflexivity | ].
    apply Forall_app; auto.
  - exists r1. auto.
Qed.

Lemma sends_only_dispatch {A} P (m : M A) : sends_only P m -> sends_only P (dispatch m).
Proof.
  intros Hm st. unfold dispatch. destruct (Hm st) as (r & E & F).
  destruct (m st) as [ a st1 ]. exists r. auto.
Qed.

Lemma sends_only_serve {A} (P : request -> Prop) req (effect : store -> result A * store) :
  P req -> (forall st, log (effect st).2 = log st) -> sends_only P (serve req effect).
Proof.
  intros HP Heff st. exists [req]. split; [ | now constructor ].
  unfold serve. destruct (fault (record req st) req); [reflexivity | ].
  now rewrite Heff.
Qed.

Lemma sends_only_for_each {A B} P (f : A -> M B) (l : list A) :
  (forall a, a ∈ l -> sends_only P (f a)) -> sends_only P (Client.for_each f l).
Proof.
  induction l as [ | a l IH ]; intros H; cbn [Client.for_each].
  - apply sends_only_ret.
  - apply sends_only_bind; [apply H; left | ]. intros b.
    apply sends_only_bind; [ | intros; apply sends_only_ret ].
    apply IH. intros a' Ha'. apply H. now right.
Qed.

Lemma log_set_table t tb st : log (set_table t tb st) = log st.
Proof. now destruct t. Qed.

Lemma row_increment_sends P t k fam col delta :
  P (Increment t k fam col delta) -> sends_only P (row_increment t k fam col delta).
Proof.
  intros HP. apply sends_only_serve; [exact HP | ]. intros st. cbv zeta.
  destruct (family_of (get_table t st) k fam !! col) as [ [ | [ [ | [] ] ts ] old ] | ];
    cbn [snd]; now rewrite ?log_set_table.
Qed.

Lemma delete_sends cfg now st0 k column :
  sends_only (sweep_request cfg now st0) (Client.delete cfg k column).
Proof.
  unfold Client.delete. destruct (String.eqb k EmptyString); [apply sends_only_ret | ].
  apply sends_only_bind.
  { apply sends_only_serve; [reflexivity | ]. intros st. cbv zeta.
    destruct (get_table Primary st !! k); reflexivity. }
  intros _. apply sends_only_bind.
  { apply sends_only_serve; [exact I | reflexivity]. }
  intros rowExists. destruct (negb rowExists); [ | apply sends_only_ret ].
  now apply row_increment_sends.
Qed.

Lemma scanCells_elem etl rows results m :
  Lib.scanCells etl rows = Return results -> Some m ∈ results ->
  exists r, r ∈ rows /\ etl r = Return (Some m).
Proof.
  revert results. induction rows as [ | r rows IH ]; intros results; cbn [Lib.scanCells].
  - intros [= <-] H. now apply elem_of_nil in H.
  - destruct (etl r) as [ o | e ] eqn:E; [ | discriminate ].
    destruct (Lib.scanCells etl rows) as [ ms | e ]; [ | discriminate ].
    intros [= <-] H. apply elem_of_cons in H as [ <- | H ].
    + exists r. split; [left | exact E].
    + destruct (IH ms eq_refl H) as (r' & Hr' & E'). exists r'. split; [now right | exact E'].
Qed.

Lemma filteredRowKeys_elem now results k :
  k ∈ Lib.filteredRowKeys now results ->
  exists m, Some m ∈ results /\ Lib.rowKey m = k /\ strictly_expired now m.
Proof.
  unfold Lib.filteredRowKeys. rewrite list_elem_of_fmap.
  intros (m & -> & Hm). apply list_elem_of_filter in Hm as [Hexp Hm].
  apply list_elem_of_omap in Hm as (o & Ho & E). simpl in E. subst o.
  exists m. split; [exact Ho | split; [reflexivity | now apply expired_strictly]].
Qed.

Lemma scanned_expired_marker cfg now st results k :
  Lib.scanCells (Lib.etl cfg) (map_to_list (metadata st)) = Return results ->
  k ∈ Lib.filteredRowKeys now results ->
  expired_marker cfg now st k.
Proof.
  intros Hscan Hk.
  destruct (filteredRowKeys_elem _ _ _ Hk) as (m & Hm & <- & Hexp).
  destruct (scanCells_elem _ _ _ _ Hscan Hm) as ([k r] & Hr & Hetl).
  apply elem_of_map_to_list in Hr.
  unfold Lib.etl in Hetl. cbn [fst snd] in Hetl.
  destruct (r !! Client.cfNameMetadata cfg) as [ f | ] eqn:Ef; [ | discriminate ].
  destruct (f !! "ttl") as [ [ | c cs ] | ] eqn:Ec; try discriminate.
  injection Hetl as <-. cbn [Lib.rowKey].
  exists c, cs. split; [ | exact Hexp ].
  unfold lookup_cells. now rewrite Hr, Ef.
Qed.

(** X13. Whatever the store holds and whichever requests it rejects, a
    sweep sends nothing but: the scan of the metadata table; in the
    primary table cell deletions in the client's family and row checks,
    never a row deletion or a write; steps of the live-row counter by
    [-1]; and in the metadata table row deletions of rows that, when the
    sweep began, were markers strictly expired at [now]. The [counts] row
    and markers that are not expired are never deleted. *)
Theorem sweep_deletes_only_expired (cfg : Client.config) (now : Z) (st : store) :
  exists reqs,
    log (Lib.deleteExpiredData cfg now st).2 = (log st ++ reqs)%list
    /\ Forall (sweep_request cfg now st) reqs.
Proof.
  unfold Lib.deleteExpiredData, bind at 1, scan, serve.
  destruct (fault (record (Scan Metadata) st) (Scan Metadata)) as [ e | ].
  { exists [Scan Metadata]. split; [reflexivity | now constructor]. }
  change (get_table Metadata (record (Scan Metadata) st)) with (metadata st).
  set (st1 := record (Scan Metadata) st).
  unfold bind at 1, await.
  destruct (Lib.scanCells (Lib.etl cfg) (map_to_list (metadata st))) as [ results | e ] eqn:Hscan.
  2: { exists [Scan Metadata]. split; [reflexivity | now constructor]. }
  assert (Hrest : sends_only (sweep_request cfg now st)
            (promiseDeletions <-
               Client.for_each (fun cell => dispatch (Client.delete cfg cell.1 cell.2))
                 (map Lib.owner (Lib.filteredRowKeys now results)) ;;
             promiseMetadataDeletions <-
               Client.for_each (fun rowKey => dispatch (row_delete Metadata rowKey))
                 (Lib.filteredRowKeys now results) ;;
             (fun st => (Promise_all (promiseDeletions ++ promiseMetadataDeletions)%list, st)))).
  { apply sends_only_bind.
    { apply sends_only_for_each. intros cell _. apply sends_only_dispatch, delete_sends. }
    intros ps1. apply sends_only_bind.
    { apply sends_only_for_each. intros k Hk. apply sends_only_dispatch.
      apply sends_only_serve.
      - exact (scanned_expired_marker cfg now st results k Hscan Hk).
      - intros s. reflexivity. }
    intros ps2. apply (sends_only_await _ (Promise_all (ps1 ++ ps2)%list)). }
  destruct (Hrest st1) as (reqs & E & F).
  exists (Scan Metadata :: reqs). split.
  - rewrite E. subst st1. cbn [log record]. now rewrite <- app_assoc.
  - constructor; [exact I | exact F].
Qed.

(** ** The life of a cell written with a TTL *)

Section Lifecycle.

Variable cfg : Client.config.

#[local] Abbreviation cf := (Client.cfName cfg).
#[local] Abbreviation cfM := (Client.cfNameMetadata cfg).

(** The family after a new version of [col] was written at [ts]. *)
#[local] Abbreviation stamped col v ts f :=
  (union_with (fun new old : list cell => Some (new ++ old)%list) {[ col := [Cell v ts] ]} f).

Lemma stamped_lookup col v ts (old : family) :
  stamped col v ts old !! col = Some (Cell v ts :: default [] (old !! col)).
Proof.
  rewrite lookup_union_with, lookup_singleton_eq. now destruct (old !! col).
Qed.

Lemma stamped_not_empty col v ts (old : family) : stamped col v ts old <> ∅.
Proof.
  intros E. pose proof (stamped_lookup col v ts old) as H.
  rewrite E, lookup_empty in H. discriminate.
Qed.

(** [insert] of one column, spelled out. *)
Lemma insert_state t fam k col v st :
  k <> EmptyString -> fault_free st ->
  Client.insert (Some t) fam k (Some {[ col := v ]}) st
  = (Return tt,
     set_table t
       (put_family (get_table t st) k fam
          (stamped col (Client.cleaned v) (clock st) (family_of (get_table t st) k fam)))
       (record (Insert t k fam {[ col := Client.cleaned v ]}) st)).
Proof.
  intros Hk Hfault. unfold Client.insert, table_insert.
  rewrite (eqb_empty_false _ Hk), map_fmap_singleton, serve_served by apply Hfault.
  rewrite map_fmap_singleton, get_table_record. reflexivity.
Qed.

Lemma ttlRowKey_not_empty k col : k <> EmptyString -> Lib.ttlRowKey cfg k col <> EmptyString.
Proof. unfold Lib.ttlRowKey. destruct k; [congruence | discriminate]. Qed.

(** The run of [set] with a TTL in the revision of
    [src/lib/BigtableClient.ts], on a store that rejects nothing: the
    primary write, the row check, which finds the row, and the marker
    write. *)
Lemma lib_set_ttl_run k v t column st :
  k <> EmptyString -> t <> 0 -> fault_free st ->
  let col := str_or column (Client.defaultColumn cfg) in
  let stA :=
    set_table Primary
      (put_family (primary st) k cf
         (stamped col (Client.cleaned v) (clock st) (family_of (primary st) k cf)))
      (record (Insert Primary k cf {[ col := Client.cleaned v ]}) st) in
  let stB := record (Exists Primary k) stA in
  (Lib.set cfg k v (Some t) column st).2
  = set_table Metadata
      (put_family (metadata st) (Lib.ttlRowKey cfg k col) cfM
         (stamped "ttl" (Num t) (clock st)
            (family_of (metadata st) (Lib.ttlRowKey cfg k col) cfM)))
      (record (Insert Metadata (Lib.ttlRowKey cfg k col) cfM {[ "ttl" := Num t ]}) stB).
Proof.
  intros Hk Ht Hfault. cbv zeta. unfold Lib.set. cbv zeta.
  set (col := str_or column (Client.defaultColumn cfg)).
  rewrite bind_dispatch, (insert_state Primary cf k col v st Hk Hfault). cbn [fst snd].
  change (get_table Primary st) with (primary st).
  set (stA := set_table Primary _ _).
  assert (HfA : fault_free stA) by (intros req; apply Hfault).
  unfold bind at 1. rewrite (row_exists_served Primary k stA (HfA _)).
  assert (Hrow : bool_decide (is_Some (get_table Primary stA !! k)) = true).
  { apply bool_decide_eq_true_2. subst stA. cbn [get_table set_table primary].
    rewrite (lookup_put_family _ _ _ _ (stamped_not_empty _ _ _ _)). eauto. }
  rewrite Hrow. cbn [negb]. unfold bind at 1. cbn [ret].
  unfold Client.ttl_given. rewrite (proj2 (Z.eqb_neq t 0) Ht).
  unfold bind at 1. rewrite bind_dispatch. cbn [ret].
  unfold Lib.insert_ttl.
  set (stB := record (Exists Primary k) stA).
  assert (HfB : fault_free stB) by (intros req; apply Hfault).
  rewrite (insert_state Metadata cfM _ "ttl" (Num t) stB
             (ttlRowKey_not_empty k col Hk) HfB).
  cbn [fst snd await].
  assert (Hnum : Client.cleaned (Num t) = Num t).
  { rewrite cleaned_scalar by reflexivity. unfold or_else, Num. cbn [truthy].
    now rewrite (proj2 (Z.eqb_neq t 0) Ht). }
  rewrite Hnum. reflexivity.
Qed.

(** The store after that run: one new version of the column and one of
    the marker, both stamped with the time of the call. *)
Lemma lib_set_ttl_state k v t column st :
  k <> EmptyString -> t <> 0 -> fault_free st ->
  let col := str_or column (Client.defaultColumn cfg) in
  let st1 := (Lib.set cfg k v (Some t) column st).2 in
  primary st1
  = put_family (primary st) k cf
      (stamped col (Client.cleaned v) (clock st) (family_of (primary st) k cf))
  /\ metadata st1
     = put_family (metadata st) (Lib.ttlRowKey cfg k col) cfM
         (stamped "ttl" (Num t) (clock st)
            (family_of (metadata st) (Lib.ttlRowKey cfg k col) cfM))
  /\ fault_free st1.
Proof.
  intros Hk Ht Hfault. cbv zeta. rewrite (lib_set_ttl_run k v t column st Hk Ht Hfault).
  split; [reflexivity | split; [reflexivity | intros req; apply Hfault] ].
Qed.

Lemma str_or_some (col d : string) : col <> EmptyString -> str_or (Some col) d = col.
Proof. now destruct col. Qed.

Lemma Qfloor_unique (x : Q) (z : Z) :
  (inject_Z z <= x)%Q -> (x < inject_Z (z + 1))%Q -> Qfloor x = z.
Proof.
  intros Hlo Hhi.
  pose proof (Qfloor_le x) as H1. pose proof (Qlt_floor x) as H2.
  assert (z < Qfloor x + 1) by (rewrite Zlt_Qlt; lra).
  assert (Qfloor x < z + 1) by (rewrite Zlt_Qlt; lra).
  lia.
Qed.

(** X14. In [src/lib/BigtableClient.ts], after [set] with a TTL of [t]
    seconds at millisecond [ms], [ttl] asked [e] whole seconds later
    answers [t - e] while that is not negative, and [0] from then on. *)
Theorem lib_ttl_counts_down k v t col st (ms e : Z) :
  k <> EmptyString -> col <> EmptyString -> t <> 0 ->
  fault_free st -> clock st = ms * 1000 ->
  (Lib.ttl cfg (ms + e * 1000) k (Some col)
     (Lib.set cfg k v (Some t) (Some col) st).2).1
  = Return (Z.max 0 (t - e)).
Proof.
  intros Hk Hcol Ht Hfault Hclock.
  destruct (lib_set_ttl_state k v t (Some col) st Hk Ht Hfault) as (Hp & Hm & Hf).
  rewrite (str_or_some col _ Hcol) in Hp, Hm.
  set (st1 := (Lib.set cfg k v (Some t) (Some col) st).2) in *.
  set (key := Lib.ttlRowKey cfg k col) in *.
  unfold Lib.ttl. cbv zeta. rewrite !(str_or_some col _ Hcol). fold key.
  assert (Hkey : key <> EmptyString) by now apply ttlRowKey_not_empty.
  assert (Hmarker : lookup_cells (metadata st1) key cfM "ttl" ≫= head
                    = Some (Cell (Num t) (clock st))).
  { rewrite Hm, (lookup_cells_put_family _ _ _ _ _ _ (stamped_lookup _ _ _ _)).
    reflexivity. }
  assert (Hcell : lookup_cells (primary st1) k cf col ≫= head
                  = Some (Cell (Client.cleaned v) (clock st))).
  { rewrite Hp, (lookup_cells_put_family _ _ _ _ _ _ (stamped_lookup _ _ _ _)).
    reflexivity. }
  unfold bind at 1.
  rewrite (retrieve_column_resolved Metadata cfM key "ttl" false st1 _ Hkey
             ltac:(discriminate) (Hf _)
             ltac:(cbn [get_table]; rewrite Hm;
                   apply (lookup_put_family _ _ _ _ (stamped_not_empty _ _ _ _)))).
  cbn [get_table]. rewrite Hmarker.
  set (st2 := record _ st1).
  unfold bind at 1.
  assert (Hrow : get_table Primary st2 !! k
                 = Some (<[cf := stamped col (Client.cleaned v) (clock st)
                                   (family_of (primary st) k cf)]>
                           (default ∅ (primary st !! k)))).
  { change (get_table Primary st2) with (primary st1). rewrite Hp.
    apply (lookup_put_family _ _ _ _ (stamped_not_empty _ _ _ _)). }
  rewrite (retrieve_column_resolved Primary cf k col true st2 _ Hk Hcol (Hf _) Hrow).
  change (get_table Primary st2) with (primary st1). rewrite Hcell.
  cbn [cell_value cell_timestamp Lib.to_number Num option_map ret fst].
  rewrite Hclock. f_equal.
  assert (E : Qfloor ((inject_Z (ms * 1000) / inject_Z 1000
                       - inject_Z (ms + e * 1000 - 1000 * t)) / inject_Z 1000 + (1 # 2))
              = t - e).
  { assert (Eq : ((inject_Z (ms * 1000) / inject_Z 1000
                     - inject_Z (ms + e * 1000 - 1000 * t)) / inject_Z 1000 + (1 # 2)
                    == inject_Z (t - e) + (1 # 2))%Q).
    { unfold Z.sub. rewrite !inject_Z_plus, !inject_Z_opp, !inject_Z_mult. field. }
    rewrite Eq. apply Qfloor_unique.
    - lra.
    - rewrite inject_Z_plus. change (inject_Z 1) with 1%Q. lra. }
  rewrite E. destruct (Z.leb_spec 0 (t - e)); lia.
Qed.

Lemma stamped_empty col v ts : stamped col v ts (∅ : family) = {[ col := [Cell v ts] ]}.
Proof.
  apply map_eq. intros c. rewrite lookup_union_with, lookup_empty.
  now destruct ({[ col := [Cell v ts] ]} !! c).
Qed.

(** A scan in which one row is a marker and no other row is. *)
Lemma scan_one_marker (etl : string * row -> result (option Lib.metaCell))
    (key : string) (m : Lib.metaCell) (rows : list (string * row)) :
  NoDup rows.*1 ->
  (forall k r, (k, r) ∈ rows -> etl (k, r) = Return (if decide (k = key) then Some m else None)) ->
  exists results,
    Lib.scanCells etl rows = Return results
    /\ omap id results = if decide (key ∈ rows.*1) then [m] else [].
Proof.
  induction rows as [ | [k r] rows IH ]; intros Hnd Hetl; cbn [Lib.scanCells].
  - exists []. split; [reflexivity | ]. cbn. 
    destruct (decide (key ∈ [])) as [ H | _ ]; [now apply elem_of_nil in H | reflexivity].
  - cbn [fmap list_fmap fst] in Hnd. apply NoDup_cons in Hnd as [Hk Hnd].
    destruct (IH Hnd) as (results & Hscan & Hres).
    { intros k' r' H. apply Hetl. now right. }
    rewrite (Hetl k r) by left. rewrite Hscan.
    eexists. split; [reflexivity | ]. cbn [omap list_omap id fmap list_fmap fst].
    destruct (decide (k = key)) as [ -> | Hne ].
    + fold (omap id results). rewrite Hres.
      destruct (decide (key ∈ rows.*1)) as [ H | _ ]; [contradiction | ].
      destruct (decide (key ∈ key :: rows.*1)) as [ _ | H ]; [reflexivity | ].
      exfalso. apply H. left.
    + fold (omap id results). rewrite Hres.
      destruct (decide (key ∈ rows.*1)) as [ H | H ];
        destruct (decide (key ∈ k :: rows.*1)) as [ H' | H' ]; try reflexivity.
      * exfalso. apply H'. now right.
      * exfalso. apply elem_of_cons in H' as [ -> | H' ]; [now apply Hne | now apply H].
Qed.

(** A sweep that finds nothing expired ends with its scan. *)
Lemma sweep_run_none now st results :
  fault st (Scan Metadata) = None ->
  Lib.scanCells (Lib.etl cfg) (map_to_list (metadata st)) = Return results ->
  Lib.filteredRowKeys now results = [] ->
  (Lib.deleteExpiredData cfg now st).2 = record (Scan Metadata) st.
Proof.
  intros Hfault Hscan Hnone. unfold Lib.deleteExpiredData, scan.
  unfold bind at 1. rewrite serve_served by exact Hfault.
  change (get_table Metadata (record (Scan Metadata) st)) with (metadata st).
  unfold bind at 1, await. rewrite Hscan, Hnone. reflexivity.
Qed.

(** A sweep that finds one expired marker deletes the owning cell and
    then the marker. *)
Lemma sweep_run_one now st results key :
  fault st (Scan Metadata) = None ->
  Lib.scanCells (Lib.etl cfg) (map_to_list (metadata st)) = Return results ->
  Lib.filteredRowKeys now results = [key] ->
  (Lib.deleteExpiredData cfg now st).2
  = (row_delete Metadata key
       (Client.delete cfg (Lib.owner key).1 (Lib.owner key).2
          (record (Scan Metadata) st)).2).2.
Proof.
  intros Hfault Hscan Hone. unfold Lib.deleteExpiredData, scan.
  unfold bind at 1. rewrite serve_served by exact Hfault.
  change (get_table Metadata (record (Scan Metadata) st)) with (metadata st).
  unfold bind at 1, await. rewrite Hscan, Hone.
  cbn [map Client.for_each]. unfold bind, dispatch, ret.
  destruct (Client.delete cfg _ _ _) as [ r1 s1 ]. cbn [snd].
  destruct (row_delete Metadata key s1) as [ r2 s2 ]. reflexivity.
Qed.

(** [delete], on a store that rejects nothing, leaves the primary table
    as [row.deleteCells] left it. *)
Lemma delete_state k column st :
  k <> EmptyString -> fault_free st ->
  let col := str_or column (str_or (Some (Client.defaultColumn cfg)) EmptyString) in
  let st' := (Client.delete cfg k column st).2 in
  primary st' = primary (row_deleteCells Primary k cf col st).2 /\ fault_free st'.
Proof.
  intros Hk Hfault. cbv zeta. unfold Client.delete.
  rewrite (eqb_empty_false _ Hk).
  set (col := str_or column _).
  assert (Hdel : (row_deleteCells Primary k cf col st).1 = Return tt
                 /\ fault_free (row_deleteCells Primary k cf col st).2).
  { unfold row_deleteCells. rewrite serve_served by apply Hfault.
    cbn [get_table record primary].
    destruct (primary st !! k); cbn; repeat split; intros r; apply Hfault. }
  destruct Hdel as (Hr1 & Hf1).
  rewrite (bind_returned _ _ _ _ Hr1).
  set (st1 := (row_deleteCells Primary k cf col st).2) in *.
  rewrite (bind_returned _ _ _ _
             (f_equal fst (row_exists_served Primary k st1 (Hf1 _)))).
  rewrite (row_exists_served Primary k st1 (Hf1 _)). cbn [snd get_table].
  destruct (bool_decide (is_Some (primary st1 !! k))); cbn [negb].
  - cbn [ret snd]. split; [reflexivity | now apply fault_free_record].
  - destruct (increment_metadata_only Client.COUNTS cfM Client.COUNTS (-1)
                (record (Exists Primary k) st1)) as [Hp Hf].
    split; [exact Hp | ]. intros req. rewrite Hf. apply Hf1.
Qed.

(** X15. In [src/lib/BigtableClient.ts], a cell written by [set] with a
    TTL of [t] seconds at millisecond [ms], into a row that was not
    there and a store without markers, is read by [get] after a sweep at
    time [now] as its sanitized value if [now <= ms + t * 1000]; after a
    sweep at a later time the cell is gone, [get] answers [null], and
    the marker is gone too. The marker key must decompose into the row
    key and the column. *)
Theorem lib_cell_lives_for_its_ttl k v t col st (ms now : Z) :
  k <> EmptyString -> col <> EmptyString -> t <> 0 ->
  fault_free st -> clock st = ms * 1000 ->
  primary st !! k = None ->
  (forall k' r, metadata st !! k' = Some r -> Lib.etl cfg (k', r) = Return None) ->
  Lib.owner (Lib.ttlRowKey cfg k col) = (k, Some col) ->
  let st1 := (Lib.set cfg k v (Some t) (Some col) st).2 in
  let st2 := (Lib.deleteExpiredData cfg now st1).2 in
  (Client.get cfg k (Some col) st2).1
  = (if ms + t * 1000 <? now then Return Client.RNull
     else Return (Client.RValue (Client.cleaned v)))
  /\ (metadata st2 !! Lib.ttlRowKey cfg k col = None <-> ms + t * 1000 < now).
Proof.
  intros Hk Hcol Ht Hfault Hclock Hrow Hquiet Howner. cbv zeta.
  destruct (lib_set_ttl_state k v t (Some col) st Hk Ht Hfault) as (Hp & Hm & Hf).
  rewrite (str_or_some col _ Hcol) in Hp, Hm.
  rewrite (family_of_absent _ _ _ Hrow), stamped_empty in Hp.
  set (st1 := (Lib.set cfg k v (Some t) (Some col) st).2) in *.
  set (key := Lib.ttlRowKey cfg k col) in *.
  set (F := stamped "ttl" (Num t) (clock st) (family_of (metadata st) key cfM)) in *.
  set (m := Lib.MetaCell key (Num t) (clock st)).
  assert (HF : F <> ∅) by apply stamped_not_empty.
  assert (HC : ({[ col := [Cell (Client.cleaned v) (clock st)] ]} : family) <> ∅)
    by (intros E; exact (insert_non_empty _ _ _ E)).
  assert (Hmarker : metadata st1 !! key = Some (<[cfM := F]> (default ∅ (metadata st !! key))))
    by (rewrite Hm; apply (lookup_put_family _ _ _ _ HF)).
  destruct (scan_one_marker (Lib.etl cfg) key m (map_to_list (metadata st1)))
    as (results & Hscan & Hres).
  { apply NoDup_fst_map_to_list. }
  { intros k' r Hin. apply elem_of_map_to_list in Hin.
    destruct (decide (k' = key)) as [ -> | Hne ].
    - rewrite Hmarker in Hin. injection Hin as <-.
      unfold Lib.etl. cbn [fst snd]. rewrite lookup_insert_eq.
      unfold F. rewrite stamped_lookup. reflexivity.
    - apply Hquiet. rewrite Hm, lookup_put_family_ne in Hin by congruence. exact Hin. }
  rewrite decide_True in Hres
    by (apply list_elem_of_fmap; exists (key, <[cfM := F]> (default ∅ (metadata st !! key)));
        split; [reflexivity | now apply elem_of_map_to_list]).
  assert (Hfiltered : Lib.filteredRowKeys now results
                      = if ms + t * 1000 <? now then [key] else []).
  { unfold Lib.filteredRowKeys. rewrite Hres. cbn [filter list_filter].
    pose proof (expired_milliseconds now ms t key) as Hexp.
    fold (Num t) in Hexp. rewrite <- Hclock in Hexp. fold m in Hexp.
    destruct (Z.ltb_spec (ms + t * 1000) now) as [ Hlt | Hge ].
    - rewrite decide_True by now apply Hexp. reflexivity.
    - rewrite decide_False; [reflexivity | ]. intros H. apply Hexp in H. lia. }
  destruct (Z.ltb_spec (ms + t * 1000) now) as [ Hlt | Hge ].
  - rewrite (sweep_run_one now st1 results key (Hf _) Hscan Hfiltered).
    fold key in Howner. rewrite Howner. cbn [fst snd].
    set (sS := record (Scan Metadata) st1).
    assert (HfS : fault_free sS) by now apply fault_free_record.
    destruct (delete_state k (Some col) sS Hk HfS) as (HpD & HfD).
    rewrite (str_or_some col _ Hcol) in HpD.
    set (sD := (Client.delete cfg k (Some col) sS).2) in *.
    assert (Hgone : primary sD = primary st).
    { rewrite HpD. unfold row_deleteCells. rewrite serve_served by apply HfS.
      change (get_table Primary (record (DeleteCells Primary k cf col) sS)) with (primary st1).
      rewrite Hp.
      rewrite (lookup_put_family _ _ _ _ HC).
      cbn [snd set_table primary].
      rewrite (family_of_put_family _ _ _ _ HC).
      now apply put_family_delete_only. }
    unfold row_delete. rewrite serve_served by apply HfD.
    cbn [snd]. split.
    + unfold Client.get. rewrite (eqb_empty_false _ Hk), (str_or_some col _ Hcol).
      rewrite retrieve_absent; [reflexivity | exact Hk | intros req; apply HfD | ].
      cbn [get_table set_table primary record]. now rewrite Hgone.
    + split; [intros _; exact Hlt | intros _ ].
      cbn [set_table metadata get_table record]. apply lookup_delete_eq.
  - rewrite (sweep_run_none now st1 results (Hf _) Hscan Hfiltered).
    split.
    + unfold Client.get. rewrite (eqb_empty_false _ Hk), (str_or_some col _ Hcol).
      assert (Hrow1 : get_table Primary (record (Scan Metadata) st1) !! k
                      = Some (<[cf := {[ col := [Cell (Client.cleaned v) (clock st)] ]}]>
                                (default ∅ (primary st !! k)))).
      { change (get_table Primary (record (Scan Metadata) st1)) with (primary st1).
        rewrite Hp. apply (lookup_put_family _ _ _ _ HC). }
      rewrite (retrieve_column_resolved Primary cf k col false (record (Scan Metadata) st1)
                 _ Hk Hcol (Hf _) Hrow1).
      change (get_table Primary (record (Scan Metadata) st1)) with (primary st1).
      rewrite Hp, (lookup_cells_put_family _ _ _ _ _ _ (lookup_singleton_eq _ _)).
      reflexivity.
    + change (metadata (record (Scan Metadata) st1)) with (metadata st1).
      rewrite Hmarker. split; [discriminate | lia].
Qed.

End Lifecycle.

Lemma lib_ttl_counts_down_witness :
  (Lib.ttl example_config (1550000000000 + 2 * 1000) "user-1" (Some "name")
     (Lib.set example_config "user-1" (Str "alice") (Some 5) (Some "name") empty_store).2).1
  = Return (Z.max 0 (5 - 2)).
Proof.
  apply (lib_ttl_counts_down example_config "user-1" (Str "alice") 5 "name" empty_store
           1550000000000 2);
    [discriminate | discriminate | discriminate | intros req; reflexivity | reflexivity].
Defined.

Lemma lib_cell_lives_for_its_ttl_witness :
  (Client.get example_config "user-1" (Some "name")
     (Lib.deleteExpiredData example_config 1550000006000
        (Lib.set example_config "user-1" (Str "alice") (Some 5) (Some "name")
           empty_store).2).2).1
  = (if 1550000000000 + 5 * 1000 <? 1550000006000 then Return Client.RNull
     else Return (Client.RValue (Client.cleaned (Str "alice")))).
Proof.
  refine (proj1 (lib_cell_lives_for_its_ttl example_config "user-1" (Str "alice") 5 "name"
                   empty_store 1550000000000 1550000006000 _ _ _ _ _ _ _ _));
    [ discriminate | discriminate | discriminate | intros req; reflexivity | reflexivity
    | reflexivity | intros k' r H; vm_compute in H; discriminate H | reflexivity ].
Defined.

(** ** Counter cells and markers of the sharded revision *)

Section Stepping.

Variable cfg : Client.config.

#[local] Abbreviation cf := (Client.cfName cfg).
#[local] Abbreviation cfM := (Client.cfNameMetadata cfg).

Lemma family_of_lookup_cells (tb : table) k fam col (r : row) :
  tb !! k = Some r -> family_of tb k fam !! col = lookup_cells tb k fam col.
Proof.
  intros H. unfold family_of, lookup_cells. rewrite H. cbn.
  destruct (r !! fam); [reflexivity | apply lookup_empty].
Qed.

(** What [get] reads from a column after [row.increment] was served. *)
Lemma get_after_increment k col delta st3 :
  k <> EmptyString -> col <> EmptyString -> fault_free st3 ->
  (Client.get cfg k (Some col) (row_increment Primary k cf col delta st3).2).1
  = match family_of (primary st3) k cf !! col with
    | None | Some [] => Return (Client.RValue (Num delta))
    | Some (Cell (Val (JNum n)) _ :: _) => Return (Client.RValue (Num (n + delta)))
    | Some (_ :: _) =>
        (Client.get cfg k (Some col) (record (Increment Primary k cf col delta) st3)).1
    end.
Proof.
  intros Hk Hcol Hfault. unfold row_increment. rewrite serve_served by apply Hfault.
  cbv zeta. change (get_table Primary (record (Increment Primary k cf col delta) st3))
    with (primary st3).
  assert (Hread : forall n old,
            (Client.get cfg k (Some col)
               (set_table Primary
                  (put_family (primary st3) k cf
                     (<[col := Cell (Num n) (clock (record (Increment Primary k cf col delta) st3))
                               :: old]> (family_of (primary st3) k cf)))
                  (record (Increment Primary k cf col delta) st3))).1
            = Return (Client.RValue (Num n))).
  { intros n old. unfold Client.get.
    rewrite (eqb_empty_false _ Hk), (str_or_some col _ Hcol).
    set (s := set_table Primary _ _).
    assert (Hrow : get_table Primary s !! k
                   = Some (<[cf := <[col := Cell (Num n) (clock st3) :: old]>
                                     (family_of (primary st3) k cf)]>
                             (default ∅ (primary st3 !! k))))
      by (apply (lookup_put_family _ _ _ _ (insert_non_empty _ _ _))).
    rewrite (retrieve_column_resolved Primary cf k col false s _ Hk Hcol (Hfault _) Hrow).
    subst s. cbn [get_table set_table primary].
    rewrite (lookup_cells_put_family _ _ _ _ _ _ (lookup_insert_eq _ _ _)). reflexivity. }
  destruct (family_of (primary st3) k cf !! col) as [ [ | [ [ | [ | b | n | s | l | l ] ] ts ] old ] | ];
    cbn [snd]; try apply Hread; reflexivity.
Qed.

(** X16. In the sharded revision, [increase] and [decrease] count from
    what [get] read before: a column that read as the integer [n] reads
    as [n + delta] afterwards, and a column of a row that was not there
    reads as [delta]. *)
Theorem sharded_step_by_adds delta c now k col ttl st :
  k <> EmptyString -> col <> EmptyString -> fault_free st ->
  let st' := (Sharded.step_by delta c cfg now k (Some col) ttl st).2 in
  (forall n, (Client.get cfg k (Some col) st).1 = Return (Client.RValue (Num n)) ->
             (Client.get cfg k (Some col) st').1 = Return (Client.RValue (Num (n + delta))))
  /\ (primary st !! k = None ->
      (Client.get cfg k (Some col) st').1 = Return (Client.RValue (Num delta))).
Proof.
  intros Hk Hcol Hfault. cbv zeta.
  assert (Hshape : Sharded.step_by delta c cfg now k (Some col) ttl
                   = check_then_write cfg (Sharded.insert_ttl c cfg now k [col] ttl) k
                       (row_increment Primary k cf col delta)).
  { unfold Sharded.step_by. rewrite (eqb_empty_false _ Hk), (str_or_some col _ Hcol).
    reflexivity. }
  rewrite Hshape.
  destruct (check_then_write_reaches cfg _ k (row_increment Primary k cf col delta) st
              (sharded_insert_ttl_markers cfg c now k [col] ttl) Hfault)
    as (st3 & -> & Hp3 & Hf3).
  rewrite (get_after_increment k col delta st3 Hk Hcol Hf3), Hp3.
  split.
  - intros n Hget. unfold Client.get in Hget.
    rewrite (eqb_empty_false _ Hk), (str_or_some col _ Hcol) in Hget.
    destruct (primary st !! k) as [ r | ] eqn:Hrow.
    + rewrite (retrieve_column_resolved Primary cf k col false st r Hk Hcol (Hfault _) Hrow)
        in Hget.
      cbn [get_table fst] in Hget.
      rewrite (family_of_lookup_cells _ _ _ _ _ Hrow).
      destruct (lookup_cells (primary st) k cf col) as [ [ | [ v ts ] old ] | ];
        cbn in Hget; try discriminate.
      injection Hget as ->. reflexivity.
    + rewrite (retrieve_absent Primary cf k (Some col) false st Hk Hfault Hrow) in Hget.
      discriminate.
  - intros Hrow. now rewrite (family_of_absent _ _ _ Hrow), lookup_empty.
Qed.

(** A step of the counter leaves the other rows of the metadata table
    alone. *)
Lemma increment_other_rows k fam col delta st k' :
  k <> k' ->
  metadata (row_increment Metadata k fam col delta st).2 !! k' = metadata st !! k'.
Proof.
  intros Hne. unfold row_increment, serve. cbn [fault record get_table metadata clock].
  destruct (fault st _); [reflexivity | ].
  destruct (family_of (metadata st) k fam !! col)
    as [ [ | [ [ | [ | b | m | s | l | l ] ] ts ] old ] | ];
    cbn [snd set_table metadata]; try reflexivity; now apply lookup_put_family_ne.
Qed.

(** The rows of the metadata table other than the counter are, after a
    row-creating call of the sharded revision, as its marker write left
    them. *)
Lemma check_then_write_marker_rows markers k (w : M unit) reqs st key :
  writes_markers cfg markers -> writes_primary w reqs -> fault_free st ->
  key <> Client.COUNTS ->
  metadata (check_then_write cfg markers k w st).2 !! key = metadata (markers st).2 !! key
  /\ fault_free (check_then_write cfg markers k w st).2.
Proof.
  intros Hm Hw Hfault Hkey. unfold check_then_write.
  destruct (Hm st Hfault) as ((ps1 & Hps1) & _ & _ & Hf1 & _).
  rewrite (bind_returned _ _ _ _ Hps1).
  set (st1 := (markers st).2) in *.
  rewrite (bind_returned _ _ _ _
             (f_equal fst (row_exists_served Primary k st1 (Hf1 _)))).
  rewrite (row_exists_served Primary k st1 (Hf1 _)). cbn [snd].
  set (st2 := record (Exists Primary k) st1).
  assert (Hf2 : fault_free st2) by now apply fault_free_record.
  destruct (negb _).
  - rewrite (bind_returned (p <- dispatch _ ;; ret [p]) _ st2
               [(Sharded.increment_counts cfg 1 st2).1])
      by (rewrite bind_dispatch; reflexivity).
    rewrite bind_dispatch. cbn [ret snd]. rewrite bind_dispatch. cbn [await snd].
    destruct (increment_metadata_only Client.COUNTS cfM Client.COUNTS 1 st2) as [_ Hf].
    set (st3 := (Sharded.increment_counts cfg 1 st2).2) in *.
    assert (Hf3 : fault_free st3) by (intros req; unfold st3, Sharded.increment_counts;
                                      rewrite Hf; apply Hf2).
    cbn [ret snd]. destruct (Hw st3 Hf3) as (Hmd & Hfw & _). split; [ | exact Hfw ].
    rewrite Hmd. unfold st3, Sharded.increment_counts.
    rewrite increment_other_rows by congruence. reflexivity.
  - cbn [bind ret]. rewrite bind_dispatch. cbn [await snd].
    destruct (Hw st2 Hf2) as (Hmd & Hfw & _). split; [ | exact Hfw ].
    now rewrite Hmd.
Qed.

Lemma lookup_cells_row (tb tb' : table) k fam col :
  tb !! k = tb' !! k -> lookup_cells tb k fam col = lookup_cells tb' k fam col.
Proof. unfold lookup_cells. now intros ->. Qed.

Lemma insert_primary_any k (data : gmap string value) :
  exists reqs, writes_primary (Client.insert (Some Primary) cf k (Some data)) reqs.
Proof.
  destruct (String.eqb_spec k EmptyString) as [ -> | Hk ].
  - exists []. intros st Hfault. cbn. rewrite app_nil_r. auto.
  - eexists. now apply insert_primary_writes.
Qed.

(** X17. In the sharded revision, [set] with a TTL of [t] seconds files
    its marker in the row that [getTTLRowKey] names for the deadline,
    under the qualifier made of the family, the row key and the column,
    and the marker holds [t]. *)
Theorem sharded_set_files_marker c now k v t column st :
  t <> 0 -> fault_free st ->
  let col := str_or column (Client.defaultColumn cfg) in
  (Client.retrieve (Some Metadata) cfM (Sharded.getTTLRowKey c now t)
     (Some (Sharded.columnQualifier cfg k col)) false
     (Sharded.set c cfg now k v (Some t) column st).2).1
  = Return (Client.RValue (Num t)).
Proof.
  intros Ht Hfault. cbv zeta.
  set (col := str_or column (Client.defaultColumn cfg)).
  set (key := Sharded.getTTLRowKey c now t).
  set (q := Sharded.columnQualifier cfg k col).
  assert (Hkey : key <> EmptyString) by discriminate.
  assert (Hq : q <> EmptyString).
  { unfold q, Sharded.columnQualifier. destruct cf; discriminate. }
  assert (Hnum : Client.cleaned (Num t) = Num t).
  { rewrite cleaned_scalar by reflexivity. unfold or_else, Num. cbn [truthy].
    now rewrite (proj2 (Z.eqb_neq t 0) Ht). }
  destruct (insert_primary_any k {[ col := v ]}) as (reqs & Hw).
  destruct (check_then_write_marker_rows (Sharded.insert_ttl c cfg now k [col] (Some t)) k
              (Client.insert (Some Primary) cf k (Some {[ col := v ]})) reqs st key
              (sharded_insert_ttl_markers cfg c now k [col] (Some t)) Hw Hfault
              (getTTLRowKey_not_counts c now t))
    as (Hmd & Hf).
  change (check_then_write cfg (Sharded.insert_ttl c cfg now k [col] (Some t)) k
            (Client.insert (Some Primary) cf k (Some {[ col := v ]})))
    with (Sharded.set c cfg now k v (Some t) column) in Hmd, Hf.
  set (st' := (Sharded.set c cfg now k v (Some t) column st).2) in *.
  assert (Hmarkers : metadata (Sharded.insert_ttl c cfg now k [col] (Some t) st).2
                     = put_family (metadata st) key cfM
                         (union_with (fun new old : list cell => Some (new ++ old)%list)
                            {[ q := [Cell (Num t) (clock st)] ]}
                            (family_of (metadata st) key cfM))).
  { unfold Sharded.insert_ttl, Client.ttl_given. rewrite (proj2 (Z.eqb_neq t 0) Ht).
    cbv zeta. rewrite bind_dispatch. cbn [ret snd].
    change (list_to_map (map (fun columnName => (Sharded.columnQualifier cfg k columnName, Num t))
                           (rev [col])))
      with ({[ q := Num t ]} : gmap string value).
    fold key. rewrite (insert_state Metadata cfM key q (Num t) st Hkey Hfault), Hnum.
    reflexivity. }
  rewrite Hmarkers in Hmd.
  set (F := union_with _ _ _) in Hmd.
  assert (HFq : F !! q = Some (Cell (Num t) (clock st)
                               :: default [] (family_of (metadata st) key cfM !! q))).
  { unfold F. rewrite lookup_union_with, lookup_singleton_eq.
    now destruct (family_of (metadata st) key cfM !! q). }
  assert (HF : F <> ∅) by (intros E; rewrite E, lookup_empty in HFq; discriminate).
  rewrite (lookup_put_family _ _ _ _ HF) in Hmd.
  rewrite (retrieve_column_resolved Metadata cfM key q false st' _ Hkey Hq (Hf _) Hmd).
  cbn [get_table fst].
  rewrite (lookup_cells_row _ (put_family (metadata st) key cfM F) key cfM q)
    by (rewrite Hmd; symmetry; apply (lookup_put_family _ _ _ _ HF)).
  rewrite (lookup_cells_put_family _ _ _ _ _ _ HFq). reflexivity.
Qed.

End Stepping.

Lemma sharded_step_by_adds_witness :
  (Client.get example_config "user-1" (Some "visits")
     (Sharded.step_by 2 (Sharded.Client 3 1) example_config 1550000000000 "user-1"
        (Some "visits") None empty_store).2).1
  = Return (Client.RValue (Num 2)).
Proof.
  refine (proj2 (sharded_step_by_adds example_config 2 (Sharded.Client 3 1) 1550000000000
                   "user-1" "visits" None empty_store _ _ _) _);
    [discriminate | discriminate | intros req; reflexivity | reflexivity].
Defined.

Lemma sharded_set_files_marker_witness :
  (Client.retrieve (Some Metadata) "cf_metadata"
     (Sharded.getTTLRowKey (Sharded.Client 3 1) 1550000000000 5)
     (Some (Sharded.columnQualifier example_config "user-1" "name")) false
     (Sharded.set (Sharded.Client 3 1) example_config 1550000000000 "user-1"
        (Str "alice") (Some 5) (Some "name") empty_store).2).1
  = Return (Client.RValue (Num 5)).
Proof.
  apply (sharded_set_files_marker example_config (Sharded.Client 3 1) 1550000000000
           "user-1" (Str "alice") 5 (Some "name") empty_store);
    [discriminate | intros req; reflexivity].
Defined.

